(** * dnd_oo: the [Player] class of [player.py], embedded and verified

    The development follows [player.py] method by method.  Python integers
    are [Z], the [abilities] dict is an insertion-ordered association list,
    [race] is an [option string], and the three ambient effects of the
    script are made explicit:
    - the module [random] is an interface ([Random]) over a generator state;
    - [input] reads from a finite script of lines and raises [EOFError]
      when the script is exhausted;
    - [print] and the prompts of [input] append to a list of events. *)

From Stdlib Require Import ZArith Lia Ascii.
From stdpp Require Import base decidable option list sorting strings.

Local Open Scope string_scope.
Local Open Scope list_scope.
Local Open Scope Z_scope.

(** ** Python values *)

(** A [dict] from [str] to [int]: insertion order is kept, as in Python. *)
Definition dict : Type := list (string * Z).

Definition keys (d : dict) : list string := d.*1.
Definition values (d : dict) : list Z := d.*2.

(** [d[k]]: [None] stands for [KeyError]. *)
Fixpoint dict_get (k : string) (d : dict) : option Z :=
  match d with
  | [] => None
  | (k', v) :: d' => if decide (k = k') then Some v else dict_get k d'
  end.

(** [d[k] = v]: an existing key keeps its position, a new key goes last. *)
Fixpoint dict_set (k : string) (v : Z) (d : dict) : dict :=
  match d with
  | [] => [(k, v)]
  | (k', v') :: d' =>
      if decide (k = k') then (k, v) :: d' else (k', v') :: dict_set k v d'
  end.

(** [l.remove(x)]: removes the first occurrence; [None] stands for the
    [ValueError] of a list without [x]. *)
Fixpoint list_remove (x : Z) (l : list Z) : option (list Z) :=
  match l with
  | [] => None
  | y :: l' =>
      if decide (x = y) then Some l' else cons y <$> list_remove x l'
  end.

(** [not v] on an [int] *)
Definition falsy (v : Z) : bool := bool_decide (v = 0).

(** [not r] on [None] or a [str] *)
Definition unset (r : option string) : bool :=
  match r with
  | None => true
  | Some s => bool_decide (s = "")
  end.

(** [sum(l)] *)
Definition sum (l : list Z) : Z := foldr Z.add 0 l.

(** [sorted(l)] on integers. *)
Definition sorted (l : list Z) : list Z := merge_sort Z.le l.

(** ** The module [random] *)

(** The three functions of [random] that the script calls, over an explicit
    generator state [G], with what the library documents of them:
    [randint(a, b)] returns [a <= N <= b], [shuffle] reorders its list,
    [choice] returns an element of a non-empty sequence ([None] stands for
    the [IndexError] on an empty one). *)
Class Random (G : Type) := {
  randint : Z → Z → G → Z * G;
  shuffle : list Z → G → list Z * G;
  choice : list string → G → option string * G;
  randint_range a b g : a ≤ b → a ≤ (randint a b g).1 ≤ b;
  shuffle_perm l g : (shuffle l g).1 ≡ₚ l;
  choice_elem l g :
    match (choice l g).1 with Some x => x ∈ l | None => l = [] end
}.

(** ** The class [Player] *)

Record Player := {
  abilities : dict;
  height : Z;
  weight : Z;
  class_ : list string;
  languages : list string;
  race : option string
}.

Definition ability_names : list string :=
  ["charisma"; "constitution"; "dexterity"; "intelligence"; "strength";
   "wisdom"].

(** [Player.__init__] *)
Definition init : Player :=
  {| abilities := [("charisma", 0); ("constitution", 0); ("dexterity", 0);
                   ("intelligence", 0); ("strength", 0); ("wisdom", 0)];
     height := 0;
     weight := 0;
     class_ := [];
     languages := [];
     race := None |}.

Definition with_abilities (d : dict) (p : Player) : Player :=
  {| abilities := d; height := height p; weight := weight p;
     class_ := class_ p; languages := languages p; race := race p |}.

Definition with_race (r : option string) (p : Player) : Player :=
  {| abilities := abilities p; height := height p; weight := weight p;
     class_ := class_ p; languages := languages p; race := r |}.

(** ** Effects *)

(** What the script writes: each [print] and each prompt of [input]. *)
Inductive event :=
  | PrintScores (scores : list Z)
  | PromptAbility (ability : string)
  | PrintRaces (races : list string)
  | PromptRace
  | InvalidChoice
  | AbilitiesNotSet
  | RaceNotSet.

Inductive exn :=
  | EOFError
  | ValueError
  | KeyError (k : string)
  | IndexError.

(** A call either returns or raises; objects are mutated in place, so the
    state at the [raise] is kept too. *)
Inductive result (S : Type) :=
  | Done (s : S)
  | Raised (e : exn) (s : S).
Arguments Done {S} s.
Arguments Raised {S} e s.

Definition state_of {S} (r : result S) : S :=
  match r with Done s | Raised _ s => s end.

Definition is_done {S} (r : result S) : bool :=
  match r with Done _ => true | Raised _ _ => false end.

Section Program.
Context {G : Type} `{Random G}.

(** Python's [int] on a [str]; [None] stands for [ValueError]. *)
Variable int : string → option Z.

(** The object, the generator, the lines still to be read and what has
    been written. *)
Record World := {
  self : Player;
  rng : G;
  stdin : list string;
  stdout : list event
}.

(** The state of the two prompting loops: the object, the lines still to
    be read and what has been written ([scores] is threaded beside it). *)
Record Console := {
  who : Player;
  unread : list string;
  written : list event
}.

(** *** [generate_score] *)

(** [[random.randint(1, 6) for _ in range(n)]] *)
Fixpoint roll_dice (n : nat) (g : G) : list Z * G :=
  match n with
  | O => ([], g)
  | S n' =>
      let (v, g1) := randint 1 6 g in
      let (vs, g2) := roll_dice n' g1 in
      (v :: vs, g2)
  end.

(** The [for i, v in enumerate(rolls)] loop: one pass, left to right; a die
    showing 1 is replaced by a new roll, which is not looked at again. *)
Fixpoint reroll_ones (rolls : list Z) (g : G) : list Z * G :=
  match rolls with
  | [] => ([], g)
  | v :: rest =>
      if decide (v = 1) then
        let (v', g1) := randint 1 6 g in
        let (rest', g2) := reroll_ones rest g1 in
        (v' :: rest', g2)
      else
        let (rest', g2) := reroll_ones rest g in
        (v :: rest', g2)
  end.

Definition generate_score (g : G) : Z * G :=
  let (rolls, g1) := roll_dice 4 g in
  let (rolls', g2) := reroll_ones rolls g1 in
  (sum (drop 1 (sorted rolls')), g2).

(** [[generate_score() for _ in range(n)]] *)
Fixpoint generate_scores (n : nat) (g : G) : list Z * G :=
  match n with
  | O => ([], g)
  | S n' =>
      let (s, g1) := generate_score g in
      let (ss, g2) := generate_scores n' g1 in
      (s :: ss, g2)
  end.

(** *** [set_abilities] *)

(** [for ability, score in zip(self.abilities, scores):
       self.abilities[ability] = score] *)
Definition assign_all (pairs : list (string * Z)) (d : dict) : dict :=
  foldl (λ d' '(ability, score), dict_set ability score d') d pairs.

(** [while not self.abilities[ability]: ...], one [input] per turn. *)
Fixpoint prompt_score (ability : string) (lines : list string)
    (scores : list Z) (p : Player) (out : list event) {struct lines}
  : result (list Z * Console) :=
  match dict_get ability (abilities p) with
  | None => Raised (KeyError ability) (scores, Build_Console p lines out)
  | Some v =>
      if falsy v then
        let out1 := out ++ [PrintScores scores; PromptAbility ability] in
        match lines with
        | [] => Raised EOFError (scores, Build_Console p [] out1)
        | line :: lines' =>
            match int line with
            | None => Raised ValueError (scores, Build_Console p lines' out1)
            | Some score =>
                if decide (score ∈ scores) then
                  let p' :=
                    with_abilities (dict_set ability score (abilities p)) p in
                  match list_remove score scores with
                  | None =>
                      Raised ValueError (scores, Build_Console p' lines' out1)
                  | Some scores' =>
                      prompt_score ability lines' scores' p' out1
                  end
                else
                  prompt_score ability lines' scores p
                    (out1 ++ [InvalidChoice])
            end
        end
      else Done (scores, Build_Console p lines out)
  end.

(** [for ability in self.abilities: ...] over the keys of the dict. *)
Fixpoint prompt_scores (names : list string) (lines : list string)
    (scores : list Z) (p : Player) (out : list event)
  : result (list Z * Console) :=
  match names with
  | [] => Done (scores, Build_Console p lines out)
  | ability :: names' =>
      match prompt_score ability lines scores p out with
      | Done (scores', c) =>
          prompt_scores names' (unread c) scores' (who c) (written c)
      | Raised e s => Raised e s
      end
  end.

(** The selections of a script that the prompts accept, in order: a line
    is read as an [int], accepted when it is among the scores still on
    offer, and then taken off them; a line that is not an [int] ends the
    run. *)
Fixpoint valid_picks (lines : list string) (scores : list Z) : list Z :=
  match lines with
  | [] => []
  | line :: lines' =>
      match int line with
      | None => []
      | Some score =>
          if decide (score ∈ scores) then
            match list_remove score scores with
            | None => []
            | Some scores' => score :: valid_picks lines' scores'
            end
          else valid_picks lines' scores
      end
  end.

Definition resume (w : World) (g : G) (c : Console) : World :=
  {| self := who c; rng := g; stdin := unread c; stdout := written c |}.

Definition set_abilities (randomize : bool) (w : World) : result World :=
  let p := self w in
  let (scores, g1) := generate_scores 6 (rng w) in
  if randomize then
    let (scores', g2) := shuffle scores g1 in
    let d := assign_all (zip (keys (abilities p)) scores') (abilities p) in
    Done {| self := with_abilities d p; rng := g2;
            stdin := stdin w; stdout := stdout w |}
  else
    match
      prompt_scores (keys (abilities p)) (stdin w) scores p (stdout w)
    with
    | Done (_, c) => Done (resume w g1 c)
    | Raised e (_, c) => Raised e (resume w g1 c)
    end.

(** *** [set_race] *)

Definition races : list string := ["High Elf"; "Human"].

(** [while not self.race: ...], one [input] per turn. *)
Fixpoint prompt_race (lines : list string) (p : Player) (out : list event)
    {struct lines} : result Console :=
  if unset (race p) then
    let out1 := out ++ [PrintRaces races; PromptRace] in
    match lines with
    | [] => Raised EOFError (Build_Console p [] out1)
    | line :: lines' =>
        if decide (line ∈ races) then
          prompt_race lines' (with_race (Some line) p) out1
        else
          prompt_race lines' p (out1 ++ [InvalidChoice])
    end
  else Done (Build_Console p lines out).

Definition set_race (randomize : bool) (w : World) : result World :=
  if randomize then
    match choice races (rng w) with
    | (Some r, g1) =>
        Done {| self := with_race (Some r) (self w); rng := g1;
                stdin := stdin w; stdout := stdout w |}
    | (None, g1) =>
        Raised IndexError
          {| self := self w; rng := g1;
             stdin := stdin w; stdout := stdout w |}
    end
  else
    match prompt_race (stdin w) (self w) (stdout w) with
    | Done c => Done (resume w (rng w) c)
    | Raised e c => Raised e (resume w (rng w) c)
    end.

(** *** [set_racial_traits] *)

Definition print (e : event) (w : World) : World :=
  {| self := self w; rng := rng w;
     stdin := stdin w; stdout := stdout w ++ [e] |}.

Definition store (d : dict) (w : World) : World :=
  {| self := with_abilities d (self w); rng := rng w;
     stdin := stdin w; stdout := stdout w |}.

Definition set_racial_traits (w : World) : result World :=
  let d := abilities (self w) in
  if existsb falsy (values d) then Done (print AbilitiesNotSet w)
  else if unset (race (self w)) then Done (print RaceNotSet w)
  else if decide (race (self w) = Some "High Elf") then
    match dict_get "charisma" d with
    | None => Raised (KeyError "charisma") w
    | Some c =>
        let d1 := dict_set "charisma" (c + 1) d in
        match dict_get "dexterity" d1 with
        | None => Raised (KeyError "dexterity") (store d1 w)
        | Some x => Done (store (dict_set "dexterity" (x + 2) d1) w)
        end
    end
  else Done w.

(** *** [setup_player] *)

(** Sequencing of calls: an exception ends the sequence. *)
Definition and_then (r : result World) (f : World → result World)
  : result World :=
  match r with
  | Done w => f w
  | Raised e w => Raised e w
  end.

Definition setup_player (randomize : bool) (g : G) (lines : list string)
  : result World :=
  let w := {| self := init; rng := g; stdin := lines; stdout := [] |} in
  if randomize then
    and_then (and_then (set_abilities true w) (set_race true))
      set_racial_traits
  else
    and_then (and_then (set_abilities false w) (set_race false))
      set_racial_traits.

End Program.

Arguments World G : clear implicits.

(** The invariant of the field [race]: unset, or one of the valid races. *)
Definition race_ok (p : Player) : Prop :=
  match race p with
  | None => True
  | Some r => r ∈ races
  end.

(** [min(l)] on a non-empty list of integers. *)
Definition lowest (l : list Z) : Z :=
  match l with
  | [] => 0
  | x :: l' => foldr Z.min x l'
  end.

(** What [set_racial_traits] adds to an ability of a race. *)
Definition racial_bonus (r : string) (ability : string) : Z :=
  if decide (r = "High Elf") then
    if decide (ability = "charisma") then 1
    else if decide (ability = "dexterity") then 2
    else 0
  else 0.

(** [n] calls of [set_racial_traits] in a row. *)
Fixpoint repeat_traits {G} (n : nat) (w : World G) : result (World G) :=
  match n with
  | O => Done w
  | S n' => and_then (set_racial_traits w) (repeat_traits n')
  end.

(** The states that the program can be in: a new player, in any
    environment, and from there any sequence of calls of the three
    methods, in any mode, taken where the call returned or where it
    raised, with the generator, the input and the output free to change
    between two calls. *)
Section Reachable.
Context {G : Type} `{Random G}.
Variable int : string → option Z.

Inductive reachable : World G → Prop :=
  | reach_init g lines out :
      reachable {| self := init; rng := g; stdin := lines; stdout := out |}
  | reach_environment w g lines out :
      reachable w →
      reachable {| self := self w; rng := g; stdin := lines; stdout := out |}
  | reach_set_abilities b w :
      reachable w → reachable (state_of (set_abilities int b w))
  | reach_set_race b w :
      reachable w → reachable (state_of (set_race b w))
  | reach_set_racial_traits w :
      reachable w → reachable (state_of (set_racial_traits w)).

End Reachable.

(** What the prompts of [set_race] write for [n] rejected lines. *)
Fixpoint rejected_races (n : nat) : list event :=
  match n with
  | O => []
  | S n' => [PrintRaces races; PromptRace; InvalidChoice] ++ rejected_races n'
  end.

(** The events of the two prompting loops. *)
Definition prompting (e : event) : bool :=
  match e with
  | AbilitiesNotSet | RaceNotSet => false
  | _ => true
  end.

(** ** A scripted randomness source and a decimal reader

    A deterministic stand-in for [random], driven by a tape of raw numbers,
    and a reader of plain decimal literals for [int]: the theorems below
    hold for every [Random] instance and every reader, these two make the
    program run on concrete inputs. *)

Definition tape : Type := list nat.

Definition randbelow (n : Z) (t : tape) : Z * tape :=
  match t with
  | [] => (0, [])
  | x :: t' => (Z.of_nat x mod n, t')
  end.

Definition tape_randint (a b : Z) (t : tape) : Z * tape :=
  let (k, t') := randbelow (b - a + 1) t in (a + k, t').

Definition tape_shuffle (l : list Z) (t : tape) : list Z * tape :=
  match t with
  | [] => (l, [])
  | x :: t' => (drop x l ++ take x l, t')
  end.

Definition tape_choice (l : list string) (t : tape)
  : option string * tape :=
  match t with
  | [] => (head l, [])
  | x :: t' => (l !! (x mod length l)%nat, t')
  end.

Definition digit (c : Ascii.ascii) : option Z :=
  let n := Ascii.nat_of_ascii c in
  if ((48 <=? n) && (n <=? 57))%nat then Some (Z.of_nat (n - 48)) else None.

Fixpoint digits (acc : Z) (s : string) : option Z :=
  match s with
  | EmptyString => Some acc
  | String c s' =>
      match digit c with
      | Some d => digits (10 * acc + d) s'
      | None => None
      end
  end.

(** A reader of plain decimal literals: ASCII digits with an optional
    leading minus, on which it agrees with Python's [int].  Surrounding
    blanks, a leading plus and underscores between digits, which [int]
    also accepts, are not read. *)
Definition decimal (s : string) : option Z :=
  match s with
  | EmptyString => None
  | String "-"%char EmptyString => None
  | String "-"%char s' => Z.opp <$> digits 0 s'
  | _ => digits 0 s
  end.

(** *** Sample inputs *)

(** A tape on which the six scores come out as 18, 10, 12, 14, 14, 16 (the
    last one after a reroll), with one number left for [shuffle]. *)
Definition tape0 : tape :=
  [5; 5; 5; 5; 1; 2; 2; 3; 2; 3; 3; 3; 3; 4; 4; 3; 1; 5; 5; 1;
   0; 4; 4; 5; 3; 2]%nat.

Definition fresh (t : tape) (lines : list string) : World tape :=
  {| self := init; rng := t; stdin := lines; stdout := [] |}.

(** Six accepted selections, one rejected in between. *)
Definition six_picks : list string :=
  ["14"; "99"; "10"; "12"; "14"; "16"; "18"].

Definition all_ten : dict :=
  [("charisma", 10); ("constitution", 10); ("dexterity", 10);
   ("intelligence", 10); ("strength", 10); ("wisdom", 10)].

Definition character (d : dict) (r : option string) : World tape :=
  {| self := with_race r (with_abilities d init);
     rng := []; stdin := []; stdout := [] |}.

Definition high_elf : World tape := character all_ten (Some "High Elf").
Definition human : World tape := character all_ten (Some "Human").

(** A player whose charisma was set by hand before the prompts. *)
Definition half_set : World tape :=
  {| self := with_abilities (dict_set "charisma" 15 (abilities init)) init;
     rng := tape0; stdin := ["18"; "10"; "12"; "14"; "14"]; stdout := [] |}.

(** A High Elf whose dict lacks the key "dexterity". *)
Definition no_dexterity : World tape :=
  character [("charisma", 10); ("strength", 12)] (Some "High Elf").

Lemma tape_randint_range a b t : a ≤ b → a ≤ (tape_randint a b t).1 ≤ b.
Proof.
  intros Hab. unfold tape_randint, randbelow.
  destruct t as [|x t']; simpl; [lia|].
  pose proof (Z.mod_pos_bound (Z.of_nat x) (b - a + 1)). lia.
Qed.

Lemma tape_shuffle_perm l t : (tape_shuffle l t).1 ≡ₚ l.
Proof.
  destruct t as [|x t']; simpl; [done|].
  by rewrite Permutation_app_comm, take_drop.
Qed.

Lemma tape_choice_elem l t :
  match (tape_choice l t).1 with Some x => x ∈ l | None => l = [] end.
Proof.
  destruct t as [|x t']; simpl.
  - destruct l; simpl; [done|]. apply list_elem_of_here.
  - destruct (l !! (x mod length l)%nat) eqn:E.
    + by eapply list_elem_of_lookup_2.
    + destruct l as [|y l]; [done|]. apply lookup_ge_None in E.
      pose proof (Nat.mod_upper_bound x (length (y :: l))) as Hlt.
      simpl in *. lia.
Qed.

#[export] Instance tape_random : Random tape := {|
  randint := tape_randint;
  shuffle := tape_shuffle;
  choice := tape_choice;
  randint_range := tape_randint_range;
  shuffle_perm := tape_shuffle_perm;
  choice_elem := tape_choice_elem
|}.

(** ** Dice *)

Definition die (v : Z) : Prop := 1 ≤ v ≤ 6.

Section Dice.
Context {G : Type} `{Random G}.

Lemma roll_dice_length n (g : G) : length (roll_dice n g).1 = n.
Proof.
  revert g. induction n as [|n IH]; intros g; simpl; [done|].
  destruct (randint 1 6 g) as [v g1]. specialize (IH g1).
  destruct (roll_dice n g1) as [vs g2]. simpl in *. by rewrite IH.
Qed.

Lemma roll_dice_die n (g : G) : Forall die (roll_dice n g).1.
Proof.
  revert g. induction n as [|n IH]; intros g; simpl; [constructor|].
  pose proof (randint_range 1 6 g) as Hr.
  destruct (randint 1 6 g) as [v g1]. specialize (IH g1).
  destruct (roll_dice n g1) as [vs g2]. simpl in *.
  constructor; [unfold die; lia | done].
Qed.

Lemma reroll_ones_length rolls (g : G) :
  length (reroll_ones rolls g).1 = length rolls.
Proof.
  revert g. induction rolls as [|v rest IH]; intros g; simpl; [done|].
  case_decide.
  - destruct (randint 1 6 g) as [v' g1]. specialize (IH g1).
    destruct (reroll_ones rest g1) as [rest' g2]. simpl in *. by rewrite IH.
  - specialize (IH g).
    destruct (reroll_ones rest g) as [rest' g2]. simpl in *. by rewrite IH.
Qed.

Lemma reroll_ones_die rolls (g : G) :
  Forall die rolls → Forall die (reroll_ones rolls g).1.
Proof.
  revert g. induction rolls as [|v rest IH]; intros g Hd; simpl; [done|].
  apply Forall_cons in Hd as [Hv Hrest]. case_decide.
  - pose proof (randint_range 1 6 g) as Hr.
    destruct (randint 1 6 g) as [v' g1]. specialize (IH g1 Hrest).
    destruct (reroll_ones rest g1) as [rest' g2]. simpl in *.
    constructor; [unfold die; lia | done].
  - specialize (IH g Hrest).
    destruct (reroll_ones rest g) as [rest' g2]. simpl in *.
    by constructor.
Qed.

Lemma sum_dice l :
  Forall die l → Z.of_nat (length l) ≤ sum l ≤ 6 * Z.of_nat (length l).
Proof.
  unfold sum. induction 1 as [|v l Hv _ IH]; [simpl; lia|].
  unfold die in Hv. rewrite length_cons. simpl foldr. lia.
Qed.

Lemma generate_score_bounds (g : G) : 3 ≤ (generate_score g).1 ≤ 18.
Proof.
  unfold generate_score.
  pose proof (roll_dice_length 4 g) as Hlen.
  pose proof (roll_dice_die 4 g) as Hdie.
  destruct (roll_dice 4 g) as [rolls g1]. simpl in Hlen, Hdie.
  pose proof (reroll_ones_length rolls g1) as Hlen'.
  pose proof (reroll_ones_die rolls g1 Hdie) as Hdie'.
  destruct (reroll_ones rolls g1) as [rolls' g2]. simpl in *.
  assert (Hperm : sorted rolls' ≡ₚ rolls') by apply merge_sort_Permutation.
  assert (Hkept : Forall die (drop 1 (sorted rolls'))).
  { apply Forall_drop. by rewrite Hperm. }
  assert (Hthree : length (drop 1 (sorted rolls')) = 3%nat).
  { rewrite length_drop, Hperm. lia. }
  pose proof (sum_dice _ Hkept) as Hsum. rewrite Hthree in Hsum. lia.
Qed.

Lemma generate_scores_length n (g : G) : length (generate_scores n g).1 = n.
Proof.
  revert g. induction n as [|n IH]; intros g; simpl; [done|].
  destruct (generate_score g) as [s g1]. specialize (IH g1).
  destruct (generate_scores n g1) as [ss g2]. simpl in *. by rewrite IH.
Qed.

Lemma generate_scores_bounds n (g : G) :
  Forall (λ s, 3 ≤ s ≤ 18) (generate_scores n g).1.
Proof.
  revert g. induction n as [|n IH]; intros g; simpl; [constructor|].
  pose proof (generate_score_bounds g) as Hs.
  destruct (generate_score g) as [s g1]. specialize (IH g1).
  destruct (generate_scores n g1) as [ss g2]. simpl in *. by constructor.
Qed.

(** C1: every score produced by [generate_score] (four dice in 1..6, each
    die showing 1 rerolled once in a single pass, the lowest dropped, the
    other three summed) lies in [3, 18], and so does each of the six scores
    that [set_abilities] generates. *)
Theorem generate_score_in_3_18 (g : G) :
  3 ≤ (generate_score g).1 ≤ 18 ∧
  Forall (λ s, 3 ≤ s ≤ 18) (generate_scores 6 g).1 ∧
  length (generate_scores 6 g).1 = 6%nat.
Proof.
  split; [apply generate_score_bounds|].
  split; [apply generate_scores_bounds | apply generate_scores_length].
Qed.

End Dice.

(** ** Dictionaries and lists *)

Lemma dict_get_Some_keys k d v : dict_get k d = Some v → k ∈ keys d.
Proof.
  unfold keys. induction d as [|[k' v'] d IH]; csimpl; [done|].
  case_decide; intros Hg.
  - subst. apply list_elem_of_here.
  - apply list_elem_of_further. auto.
Qed.

Lemma dict_get_keys k d : k ∈ keys d → is_Some (dict_get k d).
Proof.
  unfold keys. induction d as [|[k' v'] d IH]; csimpl.
  - intros Hin. by apply elem_of_nil in Hin.
  - intros Hin. case_decide; [by eexists|].
    apply elem_of_cons in Hin as [?|Hin]; [done|auto].
Qed.

Lemma dict_get_values k d v : dict_get k d = Some v → v ∈ values d.
Proof.
  unfold values. induction d as [|[k' v'] d IH]; csimpl; [done|].
  case_decide; intros Hg.
  - injection Hg as ->. apply list_elem_of_here.
  - apply list_elem_of_further. auto.
Qed.

Lemma keys_dict_set k v d : k ∈ keys d → keys (dict_set k v d) = keys d.
Proof.
  unfold keys. induction d as [|[k' v'] d IH]; csimpl.
  - intros Hin. by apply elem_of_nil in Hin.
  - intros Hin. case_decide; csimpl; [by subst|].
    apply elem_of_cons in Hin as [?|Hin]; [done|]. by rewrite IH.
Qed.

Lemma dict_get_set_eq k v d : dict_get k (dict_set k v d) = Some v.
Proof.
  induction d as [|[k' v'] d IH]; csimpl.
  - by rewrite decide_True.
  - case_decide; csimpl; [by rewrite decide_True|by rewrite decide_False].
Qed.

Lemma dict_get_set_ne k k' v d :
  k ≠ k' → dict_get k' (dict_set k v d) = dict_get k' d.
Proof.
  intros Hne. induction d as [|[k0 v0] d IH]; csimpl.
  - by rewrite decide_False.
  - destruct (decide (k = k0)) as [->|]; csimpl.
    + by rewrite !decide_False.
    + case_decide; [done|apply IH].
Qed.

(** Storing under a key that lies behind a prefix without it. *)
Lemma dict_set_behind k v v0 (pre d : dict) :
  k ∉ keys pre →
  dict_set k v (pre ++ (k, v0) :: d) = pre ++ (k, v) :: d.
Proof.
  unfold keys. induction pre as [|[k' v'] pre IH]; csimpl; intros Hk.
  - by rewrite decide_True.
  - apply not_elem_of_cons in Hk as [Hne Hk].
    rewrite decide_False by done. by rewrite IH.
Qed.

Lemma values_dict_get d v :
  NoDup (keys d) → v ∈ values d → ∃ k, k ∈ keys d ∧ dict_get k d = Some v.
Proof.
  unfold keys, values. induction d as [|[k0 v0] d IH]; csimpl.
  - intros _ Hin. by apply elem_of_nil in Hin.
  - intros Hnd Hin. apply NoDup_cons in Hnd as [Hk0 Hnd].
    apply elem_of_cons in Hin as [->|Hin].
    + exists k0. split; [apply list_elem_of_here|by rewrite decide_True].
    + destruct (IH Hnd Hin) as (k & Hk & Hget).
      exists k. split; [by apply list_elem_of_further|].
      rewrite decide_False; [done|]. by intros ->.
Qed.

Lemma existsb_falsy l : existsb falsy l = true ↔ 0 ∈ l.
Proof.
  induction l as [|v l IH]; csimpl.
  - split; [done|]. intros Hin. by apply elem_of_nil in Hin.
  - rewrite orb_true_iff, IH, elem_of_cons. unfold falsy.
    rewrite bool_decide_eq_true. split; intros [?|?]; auto.
Qed.

Lemma existsb_falsy_false l : existsb falsy l = false ↔ 0 ∉ l.
Proof.
  rewrite <- existsb_falsy. by destruct (existsb falsy l).
Qed.

Lemma falsy_false v : falsy v = false ↔ v ≠ 0.
Proof. unfold falsy. apply bool_decide_eq_false. Qed.

Lemma list_remove_elem x l : x ∈ l → is_Some (list_remove x l).
Proof.
  induction l as [|y l IH]; csimpl; intros Hin.
  - by apply elem_of_nil in Hin.
  - case_decide; [by eexists|].
    apply elem_of_cons in Hin as [?|Hin]; [done|].
    destruct (IH Hin) as [l' ->]. by eexists.
Qed.

Lemma list_remove_perm x l l' : list_remove x l = Some l' → l ≡ₚ x :: l'.
Proof.
  revert l'. induction l as [|y l IH]; csimpl; intros l'; [done|].
  case_decide.
  - intros [= <-]. by subst.
  - destruct (list_remove x l) as [l0|]; csimpl; [|done].
    intros [= <-]. rewrite (IH l0 eq_refl). apply Permutation_swap.
Qed.


(** ** Positional assignment *)

Lemma keys_assign_all pairs d :
  Forall (λ kv : string * Z, kv.1 ∈ keys d) pairs →
  keys (assign_all pairs d) = keys d.
Proof.
  unfold assign_all. revert d.
  induction pairs as [|[k v] pairs IH]; intros d Hin; simpl; [done|].
  apply Forall_cons in Hin as [Hk Hin]. simpl in Hk.
  rewrite IH; rewrite keys_dict_set; done.
Qed.

Lemma keys_assign_zip vs d : keys (assign_all (zip (keys d) vs) d) = keys d.
Proof.
  apply keys_assign_all, Forall_forall. intros [k v] Hin. simpl.
  eapply elem_of_zip_l, Hin.
Qed.

(** With distinct keys and as many values as keys, the loop overwrites
    every value, in order. *)
Lemma assign_all_zip (pre d : dict) vs :
  NoDup (keys pre ++ keys d) → length vs = length d →
  assign_all (zip (keys d) vs) (pre ++ d) = pre ++ zip (keys d) vs.
Proof.
  unfold assign_all. revert pre vs.
  induction d as [|[k v0] d IH]; intros pre vs Hnd Hlen; [done|].
  destruct vs as [|v vs]; [done|]. csimpl.
  assert (Hk : k ∉ keys pre).
  { apply NoDup_app in Hnd as (_ & Hd & _). intros Hin.
    eapply Hd; [done|]. apply list_elem_of_here. }
  rewrite dict_set_behind by done.
  rewrite (cons_middle (k, v) pre d), app_assoc.
  rewrite (cons_middle (k, v) pre (zip _ _)), app_assoc. apply IH.
  - unfold keys in *. rewrite fmap_app. csimpl. by rewrite <- app_assoc.
  - simpl in Hlen. lia.
Qed.

Lemma values_assign_zip d vs :
  NoDup (keys d) → length vs = length d →
  assign_all (zip (keys d) vs) d = zip (keys d) vs ∧
  values (assign_all (zip (keys d) vs) d) = vs.
Proof.
  intros Hnd Hlen.
  pose proof (assign_all_zip [] d vs Hnd Hlen) as Heq. simpl in Heq.
  split; [done|]. rewrite Heq. unfold values, keys.
  apply snd_zip. rewrite length_fmap. lia.
Qed.

(** ** The prompting loops *)

Lemma with_abilities_id p : with_abilities (abilities p) p = p.
Proof. by destruct p. Qed.

Ltac prompt_cases :=
  repeat match goal with
  | |- context [match dict_get ?k ?d with _ => _ end] =>
      let E := fresh "Hget" in destruct (dict_get k d) eqn:E
  | |- context [if falsy ?v then _ else _] =>
      let E := fresh "Hfalsy" in destruct (falsy v) eqn:E
  | |- context [if decide ?P then _ else _] =>
      let E := fresh "Hin" in destruct (decide P) as [E|E]
  | |- context [match ?f ?line with Some _ => _ | None => _ end] =>
      let E := fresh "Hread" in destruct (f line) eqn:E
  end.

Section Prompting.
Variable int : string → option Z.

(** One turn of the [while] loop on an unset ability. *)
Lemma prompt_score_turn ability line lines scores p out :
  dict_get ability (abilities p) = Some 0 →
  prompt_score int ability (line :: lines) scores p out =
    let out1 := out ++ [PrintScores scores; PromptAbility ability] in
    match int line with
    | None => Raised ValueError (scores, Build_Console p lines out1)
    | Some score =>
        if decide (score ∈ scores) then
          let p' := with_abilities (dict_set ability score (abilities p)) p in
          match list_remove score scores with
          | None => Raised ValueError (scores, Build_Console p' lines out1)
          | Some scores' => prompt_score int ability lines scores' p' out1
          end
        else prompt_score int ability lines scores p (out1 ++ [InvalidChoice])
    end.
Proof. intros Hget. simpl. by rewrite Hget. Qed.

(** The loop is not entered on an ability that is already set. *)
Lemma prompt_score_skip ability lines scores p out v :
  dict_get ability (abilities p) = Some v → v ≠ 0 →
  prompt_score int ability lines scores p out =
    Done (scores, Build_Console p lines out).
Proof.
  intros Hget Hv. apply falsy_false in Hv.
  destruct lines; simpl; by rewrite Hget, Hv.
Qed.

(** The loop only stores into [abilities], under keys that exist. *)
Lemma prompt_score_frame ability lines scores p out :
  let c := (state_of (prompt_score int ability lines scores p out)).2 in
  who c = with_abilities (abilities (who c)) p ∧
  keys (abilities (who c)) = keys (abilities p).
Proof.
  revert scores p out.
  induction lines as [|line lines IH]; intros scores p out; simpl.
  - prompt_cases; simpl; by rewrite with_abilities_id.
  - prompt_cases; simpl; try (by rewrite with_abilities_id); try apply IH.
    + match goal with
      | |- context [prompt_score int ability lines ?s ?q ?o] =>
          destruct (IH s q o) as [Hw Hk]
      end.
      simpl in Hw, Hk. split; [exact Hw|]. rewrite Hk.
      apply keys_dict_set. by eapply dict_get_Some_keys.
    + split; [reflexivity|]. simpl.
      apply keys_dict_set. by eapply dict_get_Some_keys.
Qed.

Lemma prompt_scores_frame names lines scores p out :
  let c := (state_of (prompt_scores int names lines scores p out)).2 in
  who c = with_abilities (abilities (who c)) p ∧
  keys (abilities (who c)) = keys (abilities p).
Proof.
  revert lines scores p out.
  induction names as [|ability names IH]; intros lines scores p out; simpl.
  - by rewrite with_abilities_id.
  - pose proof (prompt_score_frame ability lines scores p out) as Hone.
    destruct (prompt_score int ability lines scores p out)
      as [[scores' c]|e [scores' c]]; simpl in *; [|done].
    destruct Hone as [Hw Hk].
    destruct (IH (unread c) scores' (who c) (written c)) as [Hw' Hk'].
    split; [|by rewrite Hk', Hk].
    rewrite Hw'. rewrite Hw at 2. done.
Qed.

(** Prompting for one ability leaves the others alone, on the object and
    on the screen. *)
Lemma prompt_score_other k ability lines scores p out :
  k ≠ ability →
  let c := (state_of (prompt_score int ability lines scores p out)).2 in
  dict_get k (abilities (who c)) = dict_get k (abilities p) ∧
  ∃ new, written c = out ++ new ∧ PromptAbility k ∉ new.
Proof.
  intros Hne. revert scores p out.
  assert (Hask : ∀ scores' : list Z,
    PromptAbility k ∉ [PrintScores scores'; PromptAbility ability]).
  { intros scores' Hin. apply elem_of_cons in Hin as [?|Hin]; [done|].
    apply list_elem_of_singleton in Hin. congruence. }
  assert (Hnil : ∀ out : list event,
    ∃ new, out = out ++ new ∧ PromptAbility k ∉ new).
  { intros out. exists []. split; [by rewrite app_nil_r|apply not_elem_of_nil]. }
  assert (Hone : ∀ (out : list event) scores',
    ∃ new, out ++ [PrintScores scores'; PromptAbility ability] = out ++ new
           ∧ PromptAbility k ∉ new).
  { intros out scores'. eexists. split; [done|apply Hask]. }
  induction lines as [|line lines IH]; intros scores p out; simpl.
  - prompt_cases; simpl; auto.
  - prompt_cases; simpl; auto.
    + match goal with
      | |- context [prompt_score int ability lines ?s ?q ?o] =>
          destruct (IH s q o) as [Hd (new & Hw & Hnew)]
      end.
      simpl in Hd. rewrite Hd, Hw. split.
      * by apply dict_get_set_ne.
      * eexists. rewrite <- app_assoc. split; [done|].
        rewrite elem_of_app. intros [?|?]; [by eapply Hask|done].
    + split; [by apply dict_get_set_ne|apply Hone].
    + match goal with
      | |- context [prompt_score int ability lines ?s ?q ?o] =>
          destruct (IH s q o) as [Hd (new & Hw & Hnew)]
      end.
      rewrite Hd, Hw. split; [done|].
      eexists. rewrite <- !app_assoc. split; [done|].
      rewrite !elem_of_app. intros [?|[Hi|?]]; [by eapply Hask| |done].
      apply list_elem_of_singleton in Hi. congruence.
Qed.

(** An ability that holds a nonzero value when the [for] loop starts is
    neither prompted for nor stored into. *)
Lemma prompt_scores_keep k v names lines scores p out :
  dict_get k (abilities p) = Some v → v ≠ 0 →
  let c := (state_of (prompt_scores int names lines scores p out)).2 in
  dict_get k (abilities (who c)) = Some v ∧
  ∃ new, written c = out ++ new ∧ PromptAbility k ∉ new.
Proof.
  intros Hget Hv. revert lines scores p out Hget.
  induction names as [|ability names IH]; intros lines scores p out Hget;
    simpl.
  - split; [done|]. exists []. split; [by rewrite app_nil_r|].
    apply not_elem_of_nil.
  - assert (Hone :
      let c := (state_of (prompt_score int ability lines scores p out)).2 in
      dict_get k (abilities (who c)) = Some v ∧
      ∃ new, written c = out ++ new ∧ PromptAbility k ∉ new).
    { destruct (decide (k = ability)) as [<-|Hne].
      - rewrite (prompt_score_skip k lines scores p out v) by done. simpl.
        split; [done|]. exists []. split; [by rewrite app_nil_r|].
        apply not_elem_of_nil.
      - destruct (prompt_score_other k ability lines scores p out Hne)
          as [Hd Hout].
        split; [by rewrite Hd|done]. }
    destruct (prompt_score int ability lines scores p out)
      as [[scores' c]|e [scores' c]]; simpl in *; [|done].
    destruct Hone as [Hd (new & Hw & Hnew)].
    destruct (IH (unread c) scores' (who c) (written c) Hd)
      as [Hd' (new' & Hw' & Hnew')].
    split; [done|]. exists (new ++ new').
    rewrite Hw', Hw, app_assoc. split; [done|].
    rewrite elem_of_app. by intros [?|?].
Qed.

(** The loop only adds to what has been written, and on an unset ability
    it starts by showing the scores and asking. *)
Lemma prompt_score_extends ability lines scores p out :
  ∃ new,
    written (state_of (prompt_score int ability lines scores p out)).2 =
    out ++ new.
Proof.
  revert scores p out.
  induction lines as [|line lines IH]; intros scores p out; simpl.
  - prompt_cases; simpl; first [by eexists | exists []; by rewrite app_nil_r].
  - prompt_cases; simpl;
      first [ by eexists
            | exists []; by rewrite app_nil_r
            | match goal with
              | |- context [prompt_score int ability lines ?s ?q ?o] =>
                  destruct (IH s q o) as [new ->]
              end;
              rewrite <- ?app_assoc; by eexists ].
Qed.

Lemma prompt_score_asks ability lines scores p out :
  dict_get ability (abilities p) = Some 0 →
  ∃ rest,
    written (state_of (prompt_score int ability lines scores p out)).2 =
    out ++ [PrintScores scores; PromptAbility ability] ++ rest.
Proof.
  intros Hget. destruct lines as [|line lines].
  - simpl. rewrite Hget. simpl. exists []. done.
  - rewrite prompt_score_turn by done. simpl.
    prompt_cases; simpl;
      first [ by exists []
            | match goal with
              | |- context [prompt_score int ability lines ?s ?q ?o] =>
                  destruct (prompt_score_extends ability lines s q o)
                    as [new ->]
              end;
              rewrite <- ?app_assoc; by eexists ].
Qed.

(** On an unset ability the loop runs up to the first accepted selection,
    stores it, takes it off the scores and stops. *)
Lemma prompt_score_pick ability lines scores p out s rest :
  dict_get ability (abilities p) = Some 0 →
  0 ∉ scores →
  valid_picks int lines scores = s :: rest →
  ∃ scores' lines' out',
    prompt_score int ability lines scores p out =
      Done (scores', Build_Console
        (with_abilities (dict_set ability s (abilities p)) p) lines' out') ∧
    list_remove s scores = Some scores' ∧
    valid_picks int lines' scores' = rest.
Proof.
  intros Hget Hzero. revert out.
  induction lines as [|line lines IH]; intros out; [done|].
  rewrite prompt_score_turn by done. simpl.
  destruct (int line) as [score|]; [|done].
  case_decide as Hin; [|apply IH].
  destruct (list_remove score scores) as [scores'|] eqn:Hrm; [|done].
  intros [= -> <-]. exists scores', lines. eexists. split; [|done].
  eapply prompt_score_skip; [apply dict_get_set_eq|].
  intros ->. done.
Qed.

Lemma prompt_scores_picks names lines scores p out :
  NoDup names →
  (∀ k, k ∈ names → dict_get k (abilities p) = Some 0) →
  0 ∉ scores →
  (length names ≤ length (valid_picks int lines scores))%nat →
  ∃ scores' c,
    prompt_scores int names lines scores p out = Done (scores', c) ∧
    abilities (who c) =
      assign_all (zip names (valid_picks int lines scores)) (abilities p) ∧
    scores ≡ₚ
      take (length names) (valid_picks int lines scores) ++ scores'.
Proof.
  intros Hnd. revert lines scores p out.
  induction Hnd as [|k names Hk Hnd IH];
    intros lines scores p out Hunset Hzero Hlen; simpl.
  - by eexists _, _.
  - destruct (valid_picks int lines scores) as [|s rest] eqn:Hp;
      simpl in Hlen; [lia|].
    destruct (prompt_score_pick k lines scores p out s rest)
      as (scores' & lines' & out' & -> & Hrm & Hrest); auto.
    { apply Hunset, list_elem_of_here. }
    pose proof (list_remove_perm _ _ _ Hrm) as Hperm. simpl.
    destruct (IH lines' scores'
      (with_abilities (dict_set k s (abilities p)) p) out')
      as (scores'' & c & -> & Hab & Hperm').
    + intros k' Hk'. simpl. rewrite dict_get_set_ne by (by intros ->).
      by apply Hunset, list_elem_of_further.
    + intros Hin. apply Hzero. rewrite Hperm. by apply list_elem_of_further.
    + rewrite Hrest. lia.
    + exists scores'', c. rewrite Hrest in Hab, Hperm'.
      split; [done|]. split; [exact Hab|].
      by rewrite Hperm, Hperm'.
Qed.

(** When the loops return, the abilities they went through are set. *)
Lemma prompt_score_done ability lines scores p out scores' c :
  prompt_score int ability lines scores p out = Done (scores', c) →
  ∃ v, dict_get ability (abilities (who c)) = Some v ∧ v ≠ 0.
Proof.
  revert scores p out.
  induction lines as [|line lines IH]; intros scores p out; simpl.
  - prompt_cases; intros [= <- <-]. simpl.
    eexists. split; [done|by apply falsy_false].
  - prompt_cases; try done; try apply IH.
    intros [= <- <-]. simpl.
    eexists. split; [done|by apply falsy_false].
Qed.

Lemma prompt_scores_done names lines scores p out scores' c :
  prompt_scores int names lines scores p out = Done (scores', c) →
  ∀ k, k ∈ names →
       ∃ v, dict_get k (abilities (who c)) = Some v ∧ v ≠ 0.
Proof.
  revert lines scores p out.
  induction names as [|ability names IH]; intros lines scores p out; simpl.
  - intros _ k Hk. by apply elem_of_nil in Hk.
  - destruct (prompt_score int ability lines scores p out)
      as [[scores1 c1]|e [scores1 c1]] eqn:Hone; [|done].
    intros Hrest k Hk.
    destruct (decide (k ∈ names)) as [Hin|Hout]; [by eapply IH|].
    apply elem_of_cons in Hk as [->|?]; [|done].
    destruct (prompt_score_done _ _ _ _ _ _ _ Hone) as (v & Hv & Hnz).
    exists v. split; [|done].
    pose proof (prompt_scores_keep ability v names (unread c1) scores1
      (who c1) (written c1) Hv Hnz) as [Hkeep _].
    by rewrite Hrest in Hkeep.
Qed.

(** The [while] loop of [set_race] only stores into [race], and only a
    line that is one of the valid races. *)
Lemma prompt_race_frame lines p out :
  let c := state_of (prompt_race lines p out) in
  who c = with_race (race (who c)) p ∧
  (race (who c) = race p ∨
   ∃ line, line ∈ lines ∧ line ∈ races ∧ race (who c) = Some line).
Proof.
  assert (Hid : ∀ q, q = with_race (race q) q) by (by intros []).
  revert p out.
  induction lines as [|line lines IH]; intros p out; simpl.
  - destruct (unset (race p)); simpl; auto.
  - destruct (unset (race p)); simpl; [|by auto].
    case_decide as Hin.
    + destruct (IH (with_race (Some line) p)
        (out ++ [PrintRaces races; PromptRace])) as [Hw Hr].
      split; [exact Hw|]. right. destruct Hr as [Hr|(l & Hl & Hlr & Hr)].
      * exists line. split; [apply list_elem_of_here|done].
      * exists l. split; [by apply list_elem_of_further|done].
    + destruct (IH p ((out ++ [PrintRaces races; PromptRace]) ++
        [InvalidChoice])) as [Hw Hr].
      split; [exact Hw|]. destruct Hr as [Hr|(l & Hl & Hlr & Hr)]; [by left|].
      right. exists l. split; [by apply list_elem_of_further|done].
Qed.

End Prompting.

(** ** [set_racial_traits] *)

Lemma values_dict_set u k v d :
  u ∈ values (dict_set k v d) → u = v ∨ u ∈ values d.
Proof.
  unfold values. induction d as [|[k' v'] d IH]; csimpl.
  - rewrite list_elem_of_singleton. auto.
  - case_decide; csimpl; rewrite !elem_of_cons; intuition.
Qed.

Section Traits.
Context {G : Type}.

Implicit Types (w : World G).

(** [set_racial_traits] only stores into [abilities], under keys that
    exist. *)
Lemma set_racial_traits_frame w :
  let w' := state_of (set_racial_traits w) in
  self w' = with_abilities (abilities (self w')) (self w) ∧
  keys (abilities (self w')) = keys (abilities (self w)).
Proof.
  unfold set_racial_traits.
  destruct (existsb falsy _); [by rewrite with_abilities_id|].
  destruct (unset _); [by rewrite with_abilities_id|].
  case_decide; [|by rewrite with_abilities_id].
  destruct (dict_get "charisma" _) as [c|] eqn:Hc;
    [|by rewrite with_abilities_id].
  pose proof (keys_dict_set "charisma" (c + 1) _
    (dict_get_Some_keys _ _ _ Hc)) as Hk1.
  destruct (dict_get "dexterity" _) as [x|] eqn:Hx; simpl.
  - split; [reflexivity|].
    rewrite keys_dict_set by (by eapply dict_get_Some_keys). exact Hk1.
  - by split.
Qed.

(** C4: [set_racial_traits] mutates nothing when a precondition fails: if
    some ability score is 0 it prints that abilities are not set and
    returns; otherwise, if [race] is [None], it prints that race is not set
    and returns; in both cases the player, the generator and the input are
    as before and the output has that one message more. *)
Theorem set_racial_traits_guard w :
  (0 ∈ values (abilities (self w)) →
   set_racial_traits w = Done (print AbilitiesNotSet w)) ∧
  (0 ∉ values (abilities (self w)) → race (self w) = None →
   set_racial_traits w = Done (print RaceNotSet w)) ∧
  (∀ e, self (print e w) = self w ∧ rng (print e w) = rng w ∧
        stdin (print e w) = stdin w ∧ stdout (print e w) = stdout w ++ [e]).
Proof.
  unfold set_racial_traits. split; [|split]; [| |done].
  - intros Hz. apply existsb_falsy in Hz. by rewrite Hz.
  - intros Hz Hr. apply existsb_falsy_false in Hz. by rewrite Hz, Hr.
Qed.

(** What [set_racial_traits] does to a High Elf with all scores set. *)
Lemma high_elf_bonus w c x :
  0 ∉ values (abilities (self w)) →
  race (self w) = Some "High Elf" →
  dict_get "charisma" (abilities (self w)) = Some c →
  dict_get "dexterity" (abilities (self w)) = Some x →
  set_racial_traits w =
    Done (store (dict_set "dexterity" (x + 2)
                   (dict_set "charisma" (c + 1) (abilities (self w)))) w).
Proof.
  intros Hz Hr Hc Hx. apply existsb_falsy_false in Hz.
  unfold set_racial_traits. rewrite Hz, Hr, Hc. simpl.
  by rewrite dict_get_set_ne, Hx.
Qed.

(** C5: for a player with the six abilities all nonzero and race
    "High Elf", one call of [set_racial_traits] returns with charisma one
    higher and dexterity two higher; the other abilities, the keys, the
    other fields of the player, the generator, the input and the output are
    unchanged. *)
Theorem set_racial_traits_high_elf w :
  keys (abilities (self w)) = ability_names →
  0 ∉ values (abilities (self w)) →
  race (self w) = Some "High Elf" →
  ∃ c x w',
    dict_get "charisma" (abilities (self w)) = Some c ∧
    dict_get "dexterity" (abilities (self w)) = Some x ∧
    set_racial_traits w = Done w' ∧
    dict_get "charisma" (abilities (self w')) = Some (c + 1) ∧
    dict_get "dexterity" (abilities (self w')) = Some (x + 2) ∧
    (∀ k, k ≠ "charisma" → k ≠ "dexterity" →
          dict_get k (abilities (self w')) = dict_get k (abilities (self w))) ∧
    keys (abilities (self w')) = ability_names ∧
    self w' = with_abilities (abilities (self w')) (self w) ∧
    rng w' = rng w ∧ stdin w' = stdin w ∧ stdout w' = stdout w.
Proof.
  intros Hkeys Hz Hr.
  destruct (dict_get_keys "charisma" (abilities (self w))) as [c Hc].
  { rewrite Hkeys. apply (bool_decide_unpack _). by vm_compute. }
  destruct (dict_get_keys "dexterity" (abilities (self w))) as [x Hx].
  { rewrite Hkeys. apply (bool_decide_unpack _). by vm_compute. }
  exists c, x. eexists. split; [done|]. split; [done|].
  split; [by apply high_elf_bonus|]. simpl.
  split; [by rewrite dict_get_set_ne, dict_get_set_eq|].
  split; [by rewrite dict_get_set_eq|].
  split; [intros k Hk1 Hk2; by rewrite !dict_get_set_ne|].
  split; [|done].
  rewrite !keys_dict_set; [done|by eapply dict_get_Some_keys|].
  rewrite keys_dict_set; by eapply dict_get_Some_keys.
Qed.

(** C6: for a player with all abilities nonzero and race "Human",
    [set_racial_traits] returns and changes nothing: the six scores and
    every other field, the generator, the input and the output are as
    before. *)
Theorem set_racial_traits_human w :
  0 ∉ values (abilities (self w)) →
  race (self w) = Some "Human" →
  set_racial_traits w = Done w.
Proof.
  intros Hz Hr. apply existsb_falsy_false in Hz.
  unfold set_racial_traits. by rewrite Hz, Hr.
Qed.

(** Two calls in a row on a High Elf whose charisma is not -1 and whose
    dexterity is not -2, so that neither score is brought to 0 by the
    first call: both calls return and the bonus is applied twice. *)
Lemma set_racial_traits_twice w c x :
  keys (abilities (self w)) = ability_names →
  0 ∉ values (abilities (self w)) →
  race (self w) = Some "High Elf" →
  dict_get "charisma" (abilities (self w)) = Some c →
  dict_get "dexterity" (abilities (self w)) = Some x →
  c ≠ -1 → x ≠ -2 →
  ∃ w1 w2,
    set_racial_traits w = Done w1 ∧
    set_racial_traits w1 = Done w2 ∧
    dict_get "charisma" (abilities (self w2)) = Some (c + 2) ∧
    dict_get "dexterity" (abilities (self w2)) = Some (x + 4) ∧
    (∀ k, k ≠ "charisma" → k ≠ "dexterity" →
          dict_get k (abilities (self w2)) = dict_get k (abilities (self w))) ∧
    keys (abilities (self w2)) = ability_names.
Proof.
  intros Hkeys Hz Hr Hc Hx Hc1 Hx2.
  set (d1 := dict_set "dexterity" (x + 2)
               (dict_set "charisma" (c + 1) (abilities (self w)))).
  assert (Hc' : dict_get "charisma" d1 = Some (c + 1)).
  { unfold d1. by rewrite dict_get_set_ne, dict_get_set_eq. }
  assert (Hx' : dict_get "dexterity" d1 = Some (x + 2)).
  { unfold d1. by rewrite dict_get_set_eq. }
  assert (Hz' : 0 ∉ values d1).
  { unfold d1. intros Hin.
    apply values_dict_set in Hin as [?|Hin]; [lia|].
    apply values_dict_set in Hin as [?|Hin]; [lia|done]. }
  exists (store d1 w). eexists.
  split; [by apply high_elf_bonus|].
  split; [by apply (high_elf_bonus (store d1 w) (c + 1) (x + 2))|]. simpl.
  split; [rewrite dict_get_set_ne, dict_get_set_eq by done; f_equal; lia|].
  split; [rewrite dict_get_set_eq; f_equal; lia|].
  assert (Hk1 : keys d1 = ability_names).
  { unfold d1. rewrite !keys_dict_set; [done|by eapply dict_get_Some_keys|].
    rewrite keys_dict_set; by eapply dict_get_Some_keys. }
  split.
  - intros k Hk1' Hk2. unfold d1. by rewrite !dict_get_set_ne.
  - rewrite !keys_dict_set; [done|by eapply dict_get_Some_keys|].
    rewrite keys_dict_set; by eapply dict_get_Some_keys.
Qed.

End Traits.

(** ** The methods of [Player] *)

Section Methods.
Context {G : Type} `{Random G}.
Variable int : string → option Z.

Implicit Types (w : World G) (p : Player) (b : bool).

Lemma and_then_inv (P : World G → Prop) (r : result (World G)) f :
  P (state_of r) → (∀ w, P w → P (state_of (f w))) →
  P (state_of (and_then r f)).
Proof. destruct r as [w|e w]; simpl; auto. Qed.

(** [set_abilities] only stores into [abilities], under keys that exist. *)
Lemma set_abilities_frame b w :
  let w' := state_of (set_abilities int b w) in
  self w' = with_abilities (abilities (self w')) (self w) ∧
  keys (abilities (self w')) = keys (abilities (self w)).
Proof.
  unfold set_abilities. destruct (generate_scores 6 (rng w)) as [scores g1].
  destruct b.
  - destruct (shuffle scores g1) as [scores' g2]. simpl.
    split; [reflexivity|apply keys_assign_zip].
  - pose proof (prompt_scores_frame int (keys (abilities (self w))) (stdin w)
      scores (self w) (stdout w)) as Hframe.
    destruct (prompt_scores int (keys (abilities (self w))) (stdin w) scores
      (self w) (stdout w)) as [[scores' c]|e [scores' c]]; exact Hframe.
Qed.

(** [set_race] only stores into [race]. *)
Lemma set_race_frame b w :
  let w' := state_of (set_race b w) in
  self w' = with_race (race (self w')) (self w).
Proof.
  unfold set_race. destruct b.
  - destruct (choice races (rng w)) as [[r|] g1]; simpl; [done|].
    by destruct (self w).
  - pose proof (prompt_race_frame (stdin w) (self w) (stdout w)) as [Hw _].
    destruct (prompt_race (stdin w) (self w) (stdout w)) as [c|e c];
      exact Hw.
Qed.

(** C9: the dict [abilities] has exactly the six keys charisma,
    constitution, dexterity, intelligence, strength, wisdom: [__init__]
    creates them, and [set_abilities] (in either mode), [set_race] and
    [set_racial_traits] leave the keys as they are, whether the call
    returns or raises; so does the whole of [setup_player]. *)
Theorem ability_keys_fixed :
  keys (abilities init) = ability_names ∧
  (∀ b w, keys (abilities (self (state_of (set_abilities int b w)))) =
          keys (abilities (self w))) ∧
  (∀ b w, keys (abilities (self (state_of (set_race b w)))) =
          keys (abilities (self w))) ∧
  (∀ w, keys (abilities (self (state_of (set_racial_traits w)))) =
        keys (abilities (self w))) ∧
  (∀ b (g : G) lines,
     keys (abilities (self (state_of (setup_player int b g lines)))) =
     ability_names).
Proof.
  split; [reflexivity|].
  split; [intros b w; apply set_abilities_frame|].
  split; [intros b w; by rewrite (set_race_frame b w)|].
  split; [intros w; apply set_racial_traits_frame|].
  intros b g lines. unfold setup_player.
  set (w0 := {| self := init; rng := g; stdin := lines; stdout := [] |}).
  set (P := λ w, keys (abilities (self w)) = ability_names).
  assert (Hab : ∀ b' w, P w → P (state_of (set_abilities int b' w))).
  { intros b' w Hw. unfold P. by rewrite (proj2 (set_abilities_frame b' w)). }
  assert (Hrace : ∀ b' w, P w → P (state_of (set_race b' w))).
  { intros b' w Hw. unfold P. by rewrite (set_race_frame b' w). }
  assert (Htraits : ∀ w, P w → P (state_of (set_racial_traits w))).
  { intros w Hw. unfold P. by rewrite (proj2 (set_racial_traits_frame w)). }
  assert (H0 : P w0) by reflexivity.
  destruct b; repeat apply (and_then_inv P); auto.
Qed.

Lemma NoDup_ability_names : NoDup ability_names.
Proof. apply (bool_decide_unpack _). by vm_compute. Qed.

(** C2: on a player with the six ability keys, [set_abilities(True)]
    returns, and stores the shuffled scores positionally under the six
    names: the values of the dict are then a permutation of the six
    generated scores (none added, dropped or altered), the keys are the
    same six, and every ability holds one of the generated scores. *)
Theorem set_abilities_random_permutation w :
  keys (abilities (self w)) = ability_names →
  let (scores, g1) := generate_scores 6 (rng w) in
  ∃ w',
    set_abilities int true w = Done w' ∧
    abilities (self w') = zip ability_names (shuffle scores g1).1 ∧
    values (abilities (self w')) ≡ₚ scores ∧
    keys (abilities (self w')) = ability_names ∧
    ∀ k, k ∈ ability_names →
         ∃ v, dict_get k (abilities (self w')) = Some v ∧ v ∈ scores.
Proof.
  intros Hkeys. unfold set_abilities.
  pose proof (generate_scores_length 6 (rng w)) as Hlen.
  destruct (generate_scores 6 (rng w)) as [scores g1]. simpl in Hlen.
  pose proof (shuffle_perm scores g1) as Hperm.
  destruct (shuffle scores g1) as [scores' g2]. simpl in Hperm.
  assert (Hlen' : length scores' = length (abilities (self w))).
  { rewrite Hperm, Hlen. unfold keys in Hkeys.
    by rewrite <- (length_fmap fst), Hkeys. }
  assert (Hnd : NoDup (keys (abilities (self w)))).
  { rewrite Hkeys. apply NoDup_ability_names. }
  destruct (values_assign_zip _ _ Hnd Hlen') as [Hzip Hvals].
  eexists. split; [reflexivity|]. simpl.
  split; [by rewrite Hzip, Hkeys|].
  split; [by rewrite Hvals|].
  split; [by rewrite keys_assign_zip|].
  intros k Hk.
  destruct (dict_get_keys k
    (assign_all (zip (keys (abilities (self w))) scores')
       (abilities (self w)))) as [v Hv].
  { by rewrite keys_assign_zip, Hkeys. }
  exists v. split; [done|].
  apply dict_get_values in Hv. by rewrite Hvals, Hperm in Hv.
Qed.

Lemma race_ok_same p p' : race p' = race p → race_ok p → race_ok p'.
Proof. unfold race_ok. by intros ->. Qed.

(** C3: [race] is [None] or one of "High Elf", "Human": [__init__]
    establishes it, [set_abilities], [set_race] and [set_racial_traits]
    preserve it (whether they return or raise), and so [setup_player] ends
    with it; [set_race(True)] always returns with a valid race stored;
    [set_race(False)] leaves [race] as it was or stores a line of the input
    that is equal to one of the valid races. *)
Theorem race_invariant :
  race_ok init ∧
  (∀ b w, race_ok (self w) →
          race_ok (self (state_of (set_abilities int b w)))) ∧
  (∀ b w, race_ok (self w) → race_ok (self (state_of (set_race b w)))) ∧
  (∀ w, race_ok (self w) → race_ok (self (state_of (set_racial_traits w)))) ∧
  (∀ b (g : G) lines,
     race_ok (self (state_of (setup_player int b g lines)))) ∧
  (∀ w, ∃ w' r, set_race true w = Done w' ∧
                race (self w') = Some r ∧ r ∈ races) ∧
  (∀ w, let w' := state_of (set_race false w) in
        race (self w') = race (self w) ∨
        ∃ line, line ∈ stdin w ∧ line ∈ races ∧
                race (self w') = Some line).
Proof.
  assert (Hab : ∀ b w, race_ok (self w) →
    race_ok (self (state_of (set_abilities int b w)))).
  { intros b w. apply race_ok_same.
    by rewrite (proj1 (set_abilities_frame b w)). }
  assert (Hrandom : ∀ w, ∃ w' r,
    set_race true w = Done w' ∧ race (self w') = Some r ∧ r ∈ races).
  { intros w. unfold set_race.
    pose proof (choice_elem races (rng w)) as Hc.
    destruct (choice races (rng w)) as [[r|] g1]; simpl in Hc; [|done].
    by eexists _, r. }
  assert (Hprompt : ∀ w, let w' := state_of (set_race false w) in
    race (self w') = race (self w) ∨
    ∃ line, line ∈ stdin w ∧ line ∈ races ∧ race (self w') = Some line).
  { intros w. unfold set_race.
    pose proof (prompt_race_frame (stdin w) (self w) (stdout w)) as [_ Hr].
    destruct (prompt_race (stdin w) (self w) (stdout w)) as [c|e c];
      exact Hr. }
  assert (Hrace : ∀ b w, race_ok (self w) →
    race_ok (self (state_of (set_race b w)))).
  { intros [] w Hok.
    - destruct (Hrandom w) as (w' & r & -> & Hr & Hin).
      unfold race_ok. simpl. by rewrite Hr.
    - destruct (Hprompt w) as [Hr|(line & _ & Hin & Hr)].
      + by eapply race_ok_same.
      + unfold race_ok. by rewrite Hr. }
  assert (Htraits : ∀ w, race_ok (self w) →
    race_ok (self (state_of (set_racial_traits w)))).
  { intros w. apply race_ok_same.
    by rewrite (proj1 (set_racial_traits_frame w)). }
  repeat split; auto.
  intros b g lines. unfold setup_player.
  destruct b;
    repeat apply (and_then_inv (λ w, race_ok (self w))); auto;
    apply Hab; exact I.
Qed.

(** C10: [set_abilities(False)] skips every ability that already holds a
    nonzero value: whether the call returns or raises, that ability keeps
    its value and nothing written during the call is a prompt for it. *)
Theorem set_abilities_prompt_skips_set w k v :
  dict_get k (abilities (self w)) = Some v → v ≠ 0 →
  let w' := state_of (set_abilities int false w) in
  dict_get k (abilities (self w')) = Some v ∧
  ∃ new, stdout w' = stdout w ++ new ∧ PromptAbility k ∉ new.
Proof.
  intros Hget Hv. unfold set_abilities.
  destruct (generate_scores 6 (rng w)) as [scores g1].
  pose proof (prompt_scores_keep int k v (keys (abilities (self w)))
    (stdin w) scores (self w) (stdout w) Hget Hv) as Hkeep.
  destruct (prompt_scores int (keys (abilities (self w))) (stdin w) scores
    (self w) (stdout w)) as [[scores' c]|e [scores' c]]; exact Hkeep.
Qed.

(** C8: the prompts of [set_abilities(False)].  On an unset ability, a
    selection that is not among the remaining scores changes neither the
    dict nor the scores, prints "Invalid choice!" and the loop asks again
    for the same ability; a selection that is among them is stored under
    the ability (the other abilities and the keys untouched) and one
    occurrence of it is removed from the scores, which ends the loop for
    this ability when the selection is nonzero.  On a player whose six
    abilities are all 0, a script with six accepted selections among the
    six generated scores makes the call return with the selections stored
    in order, all six abilities nonzero and no score left.  And whenever
    the call returns, on a player with the six keys, no ability is 0. *)
Theorem set_abilities_prompt_selection :
  (∀ ability line lines scores p out s,
     dict_get ability (abilities p) = Some 0 →
     int line = Some s → s ∉ scores →
     prompt_score int ability (line :: lines) scores p out =
       prompt_score int ability lines scores p
         (out ++ [PrintScores scores; PromptAbility ability; InvalidChoice]) ∧
     ∃ rest,
       written
         (state_of (prompt_score int ability (line :: lines) scores p out)).2 =
       out ++ [PrintScores scores; PromptAbility ability; InvalidChoice;
               PrintScores scores; PromptAbility ability] ++ rest) ∧
  (∀ ability line lines scores p out s,
     dict_get ability (abilities p) = Some 0 →
     int line = Some s → s ∈ scores →
     ∃ scores',
       let d := dict_set ability s (abilities p) in
       list_remove s scores = Some scores' ∧
       scores ≡ₚ s :: scores' ∧
       prompt_score int ability (line :: lines) scores p out =
         prompt_score int ability lines scores' (with_abilities d p)
           (out ++ [PrintScores scores; PromptAbility ability]) ∧
       dict_get ability d = Some s ∧
       (∀ k, k ≠ ability → dict_get k d = dict_get k (abilities p)) ∧
       keys d = keys (abilities p) ∧
       (s ≠ 0 →
        prompt_score int ability (line :: lines) scores p out =
          Done (scores', Build_Console (with_abilities d p) lines
                  (out ++ [PrintScores scores; PromptAbility ability])))) ∧
  (∀ w,
     keys (abilities (self w)) = ability_names →
     (∀ v, v ∈ values (abilities (self w)) → v = 0) →
     let (scores, g1) := generate_scores 6 (rng w) in
     let picks := valid_picks int (stdin w) scores in
     length picks = 6%nat →
     ∃ c,
       prompt_scores int ability_names (stdin w) scores (self w) (stdout w) =
         Done ([], c) ∧
       set_abilities int false w = Done (resume w g1 c) ∧
       abilities (who c) = zip ability_names picks ∧
       (0 ∉ values (abilities (who c))) ∧
       picks ≡ₚ scores) ∧
  (∀ w w',
     keys (abilities (self w)) = ability_names →
     set_abilities int false w = Done w' →
     0 ∉ values (abilities (self w'))).
Proof.
  split; [|split; [|split]].
  - intros ability line lines scores p out s Hget Hread Hin.
    assert (Hturn :
      prompt_score int ability (line :: lines) scores p out =
      prompt_score int ability lines scores p
        (out ++ [PrintScores scores; PromptAbility ability; InvalidChoice])).
    { rewrite prompt_score_turn by done. simpl.
      rewrite Hread, decide_False by done. by rewrite <- app_assoc. }
    split; [done|]. rewrite Hturn.
    destruct (prompt_score_asks int ability lines scores p
      (out ++ [PrintScores scores; PromptAbility ability; InvalidChoice])
      Hget) as [rest ->].
    exists rest. by rewrite <- app_assoc.
  - intros ability line lines scores p out s Hget Hread Hin.
    destruct (list_remove_elem s scores Hin) as [scores' Hrm].
    assert (Hturn :
      prompt_score int ability (line :: lines) scores p out =
      prompt_score int ability lines scores'
        (with_abilities (dict_set ability s (abilities p)) p)
        (out ++ [PrintScores scores; PromptAbility ability])).
    { rewrite prompt_score_turn by done. simpl.
      by rewrite Hread, decide_True, Hrm by done. }
    exists scores'. cbv zeta.
    split; [done|]. split; [by apply list_remove_perm|].
    split; [done|]. split; [apply dict_get_set_eq|].
    split; [intros k Hk; by apply dict_get_set_ne|].
    split; [apply keys_dict_set; by eapply dict_get_Some_keys|].
    intros Hs. rewrite Hturn.
    eapply prompt_score_skip; [apply dict_get_set_eq|done].
  - intros w Hkeys Hunset. unfold set_abilities. rewrite Hkeys.
    pose proof (generate_scores_length 6 (rng w)) as Hlen.
    pose proof (generate_scores_bounds 6 (rng w)) as Hbounds.
    destruct (generate_scores 6 (rng w)) as [scores g1].
    simpl in Hlen, Hbounds. intros Hpicks.
    assert (Hzero : 0 ∉ scores).
    { intros Hin. eapply Forall_forall in Hbounds; [|done]. simpl in *. lia. }
    destruct (prompt_scores_picks int ability_names (stdin w) scores (self w)
      (stdout w)) as (scores' & c & Hrun & Hab & Hperm).
    { apply NoDup_ability_names. }
    { intros k Hk. rewrite <- Hkeys in Hk.
      destruct (dict_get_keys _ _ Hk) as [v Hv]. rewrite Hv. f_equal.
      by eapply Hunset, dict_get_values. }
    { done. }
    { rewrite Hpicks. done. }
    set (picks := valid_picks int (stdin w) scores) in *.
    assert (Hall : take (length ability_names) picks = picks).
    { apply take_ge. rewrite Hpicks. done. }
    rewrite Hall in Hperm.
    assert (Hnone : scores' = []).
    { apply nil_length_inv.
      apply (f_equal length) in Hall.
      pose proof (Permutation_length Hperm) as Hl.
      rewrite length_app in Hl. lia. }
    subst scores'. rewrite app_nil_r in Hperm.
    assert (Hlen' : length picks = length (abilities (self w))).
    { unfold keys in Hkeys.
      by rewrite Hpicks, <- (length_fmap fst), Hkeys. }
    assert (Hnd : NoDup (keys (abilities (self w)))).
    { rewrite Hkeys. apply NoDup_ability_names. }
    destruct (values_assign_zip _ _ Hnd Hlen') as [Hzip Hvals].
    rewrite Hkeys in Hzip, Hvals.
    exists c. rewrite Hrun. split; [done|]. split; [done|].
    rewrite Hab. split; [done|]. split; [|done].
    rewrite Hvals. by rewrite <- Hperm.
  - intros w w' Hkeys. unfold set_abilities.
    destruct (generate_scores 6 (rng w)) as [scores g1].
    pose proof (prompt_scores_frame int (keys (abilities (self w))) (stdin w)
      scores (self w) (stdout w)) as [_ Hsame].
    destruct (prompt_scores int (keys (abilities (self w))) (stdin w) scores
      (self w) (stdout w)) as [[scores' c]|e [scores' c]] eqn:Hrun; [|done].
    intros [= <-]. simpl in *. intros Hz.
    destruct (values_dict_get _ _ ltac:(rewrite Hsame, Hkeys;
      apply NoDup_ability_names) Hz) as (k & Hk & Hget).
    rewrite Hsame in Hk.
    destruct (prompt_scores_done int _ _ _ _ _ _ _ Hrun k Hk)
      as (v & Hv & Hnz).
    congruence.
Qed.

End Methods.

(** ** Concrete runs *)

Example generate_scores_tape0 :
  generate_scores 6 tape0 = ([18; 10; 12; 14; 14; 16], [2%nat]).
Proof. reflexivity. Qed.

Example setup_player_random :
  self <$> [state_of (setup_player decimal true tape0 [])] =
  [with_race (Some "High Elf")
     (with_abilities
        [("charisma", 13); ("constitution", 14); ("dexterity", 16);
         ("intelligence", 16); ("strength", 18); ("wisdom", 10)] init)].
Proof. reflexivity. Qed.

Example setup_player_prompted :
  self <$> [state_of (setup_player decimal false tape0
                        (six_picks ++ ["Elf"; "High Elf"]))] =
  [with_race (Some "High Elf")
     (with_abilities
        [("charisma", 15); ("constitution", 10); ("dexterity", 14);
         ("intelligence", 14); ("strength", 16); ("wisdom", 18)] init)].
Proof. reflexivity. Qed.

Example setup_player_not_a_number :
  setup_player decimal false tape0 ["14"; "x"] =
  Raised ValueError
    {| self := with_abilities (dict_set "charisma" 14 (abilities init)) init;
       rng := [2%nat]; stdin := [];
       stdout := [PrintScores [18; 10; 12; 14; 14; 16];
                  PromptAbility "charisma";
                  PrintScores [18; 10; 12; 14; 16];
                  PromptAbility "constitution"] |}.
Proof. reflexivity. Qed.

Lemma set_abilities_random_permutation_witness :
  keys (abilities (self (fresh tape0 []))) = ability_names ∧
  ∃ w', set_abilities decimal true (fresh tape0 []) = Done w' ∧
        values (abilities (self w')) ≡ₚ [18; 10; 12; 14; 14; 16].
Proof.
  split; [reflexivity|].
  pose proof (set_abilities_random_permutation decimal (fresh tape0 [])
    eq_refl) as Hthm.
  change (generate_scores 6 (rng (fresh tape0 [])))
    with ([18; 10; 12; 14; 14; 16], [2%nat]) in Hthm.
  destruct Hthm as (w' & Hrun & _ & Hperm & _).
  exists w'. split; [exact Hrun|exact Hperm].
Defined.

Lemma race_invariant_witness :
  race_ok (self human) ∧
  race_ok (self (state_of (set_race false human))).
Proof.
  assert (Hok : race_ok (self human)) by compute_done.
  split; [exact Hok|].
  exact (proj1 (proj2 (proj2 (race_invariant decimal))) false human Hok).
Defined.

Lemma set_racial_traits_guard_witness :
  0 ∈ values (abilities (self (fresh [] []))) ∧
  set_racial_traits (fresh [] []) = Done (print AbilitiesNotSet (fresh [] [])).
Proof.
  assert (Hz : 0 ∈ values (abilities (self (fresh [] [])))) by compute_done.
  split; [exact Hz|].
  exact (proj1 (set_racial_traits_guard (fresh [] [])) Hz).
Defined.

Lemma set_racial_traits_high_elf_witness :
  ∃ w', set_racial_traits high_elf = Done w' ∧
        dict_get "charisma" (abilities (self w')) = Some 11 ∧
        dict_get "dexterity" (abilities (self w')) = Some 12.
Proof.
  assert (Hz : 0 ∉ values (abilities (self high_elf))) by compute_done.
  destruct (set_racial_traits_high_elf high_elf eq_refl Hz eq_refl)
    as (c & x & w' & Hc & Hx & Hrun & Hc' & Hx' & _).
  injection Hc as <-. injection Hx as <-.
  exists w'. split; [exact Hrun|]. split; [exact Hc'|exact Hx'].
Defined.

Lemma set_racial_traits_human_witness :
  (0 ∉ values (abilities (self human))) ∧
  set_racial_traits human = Done human.
Proof.
  assert (Hz : 0 ∉ values (abilities (self human))) by compute_done.
  split; [exact Hz|].
  exact (set_racial_traits_human human Hz eq_refl).
Defined.

Lemma set_abilities_prompt_skips_set_witness :
  dict_get "charisma" (abilities (self half_set)) = Some 15 ∧
  let w' := state_of (set_abilities decimal false half_set) in
  dict_get "charisma" (abilities (self w')) = Some 15 ∧
  ∃ new, stdout w' = stdout half_set ++ new ∧
         PromptAbility "charisma" ∉ new.
Proof.
  split; [reflexivity|].
  apply (set_abilities_prompt_skips_set decimal half_set "charisma" 15);
    [reflexivity|lia].
Defined.

Lemma set_abilities_prompt_selection_witness :
  valid_picks decimal six_picks [18; 10; 12; 14; 14; 16] =
    [14; 10; 12; 14; 16; 18] ∧
  ∃ c,
    set_abilities decimal false (fresh tape0 six_picks) =
      Done (resume (fresh tape0 six_picks) [2%nat] c) ∧
    abilities (who c) = zip ability_names [14; 10; 12; 14; 16; 18] ∧
    0 ∉ values (abilities (who c)).
Proof.
  split; [reflexivity|].
  assert (Hunset : ∀ v,
    v ∈ values (abilities (self (fresh tape0 six_picks))) → v = 0).
  { intros v Hv. apply list_elem_of_In in Hv. simpl in Hv. intuition. }
  pose proof (proj1 (proj2 (proj2 (set_abilities_prompt_selection decimal)))
    (fresh tape0 six_picks) eq_refl Hunset) as Hthm.
  change (generate_scores 6 (rng (fresh tape0 six_picks)))
    with ([18; 10; 12; 14; 14; 16], [2%nat]) in Hthm.
  destruct (Hthm eq_refl) as (c & _ & Hrun & Hab & Hz & _).
  exists c. split; [exact Hrun|]. split; [exact Hab|exact Hz].
Defined.

(** ** Dropping the lowest die *)

Lemma sum_Permutation l k : l ≡ₚ k → sum l = sum k.
Proof.
  unfold sum. induction 1; simpl; lia.
Qed.

Lemma foldr_min_le y l :
  foldr Z.min y l ≤ y ∧ ∀ x, x ∈ l → foldr Z.min y l ≤ x.
Proof.
  induction l as [|z l [IHy IHl]]; simpl.
  - split; [lia|]. by intros x ?%elem_of_nil.
  - split; [lia|]. intros x [->|Hin]%elem_of_cons; [lia|].
    specialize (IHl x Hin). lia.
Qed.

Lemma lowest_le l x : x ∈ l → lowest l ≤ x.
Proof.
  destruct l as [|y l]; [by intros ?%elem_of_nil|]. simpl.
  destruct (foldr_min_le y l) as [Hy Hl].
  intros [->|Hin]%elem_of_cons; auto.
Qed.

Lemma lowest_elem l : l ≠ [] → lowest l ∈ l.
Proof.
  destruct l as [|y l]; [done|]. intros _. simpl.
  revert y. induction l as [|z l IH]; intros y; simpl.
  - apply list_elem_of_here.
  - destruct (Z.min_spec z (foldr Z.min y l)) as [[_ ->]|[_ ->]].
    + apply list_elem_of_further, list_elem_of_here.
    + specialize (IH y). apply elem_of_cons in IH as [->|IH].
      * apply list_elem_of_here.
      * by do 2 apply list_elem_of_further.
Qed.

Lemma sorted_head l m rest : sorted l = m :: rest → m = lowest l.
Proof.
  intros Hs.
  assert (Hperm : m :: rest ≡ₚ l).
  { rewrite <- Hs. apply merge_sort_Permutation. }
  assert (Hsorted : StronglySorted Z.le (m :: rest)).
  { rewrite <- Hs. apply StronglySorted_merge_sort; apply _. }
  apply StronglySorted_cons in Hsorted as [Hle _].
  assert (Hne : l ≠ []).
  { intros ->. by apply Permutation_nil_r in Hperm. }
  assert (Hm : m ∈ l) by (rewrite <- Hperm; apply list_elem_of_here).
  pose proof (lowest_le l m Hm).
  pose proof (lowest_elem l Hne) as Hin.
  set (x := lowest l) in *. rewrite <- Hperm in Hin.
  apply elem_of_cons in Hin as [?|Hin]; [done|].
  eapply Forall_forall in Hle; [|exact Hin]. lia.
Qed.

Lemma sum_drop_lowest l : l ≠ [] → sum (drop 1 (sorted l)) = sum l - lowest l.
Proof.
  intros Hne.
  pose proof (merge_sort_Permutation Z.le l) as Hperm. fold (sorted l) in Hperm.
  destruct (sorted l) as [|m rest] eqn:Hs.
  { by apply Permutation_nil_l in Hperm. }
  rewrite <- (sorted_head l m rest Hs), <- (sum_Permutation _ _ Hperm).
  simpl. rewrite drop_0. unfold sum. simpl. lia.
Qed.

Section Rerolls.
Context {G : Type} `{Random G}.

(** X1: the score of [generate_score] is the sum of the four dice as they
    lie after the reroll pass, minus the lowest of them. *)
Theorem generate_score_drops_lowest (g : G) :
  let (rolls, g1) := roll_dice 4 g in
  let (rolls', g2) := reroll_ones rolls g1 in
  generate_score g = (sum rolls' - lowest rolls', g2).
Proof.
  unfold generate_score.
  pose proof (roll_dice_length 4 g) as Hlen.
  destruct (roll_dice 4 g) as [rolls g1]. simpl in Hlen.
  pose proof (reroll_ones_length rolls g1) as Hlen'.
  destruct (reroll_ones rolls g1) as [rolls' g2]. simpl in Hlen'.
  rewrite sum_drop_lowest; [done|].
  intros ->. simpl in Hlen'. lia.
Qed.

(** X2: the reroll pass only touches dice that show 1: without a 1 among
    the rolls it returns them as they are and draws nothing from the
    generator, and in any case a die that shows another value keeps it,
    in its place, and the number of dice is kept. *)
Theorem reroll_ones_only_ones (rolls : list Z) (g : G) :
  (1 ∉ rolls → reroll_ones rolls g = (rolls, g)) ∧
  (∀ (i : nat) v, rolls !! i = Some v → v ≠ 1 →
                  (reroll_ones rolls g).1 !! i = Some v) ∧
  length (reroll_ones rolls g).1 = length rolls.
Proof.
  split; [|split; [|apply reroll_ones_length]].
  - revert g. induction rolls as [|v rest IH]; intros g Hno; simpl; [done|].
    apply not_elem_of_cons in Hno as [Hv Hno].
    rewrite decide_False by done. by rewrite IH.
  - revert g. induction rolls as [|v rest IH]; intros g i u Hi Hu; [done|].
    simpl. case_decide as Hv.
    + destruct (randint 1 6 g) as [v' g1].
      specialize (IH g1). destruct (reroll_ones rest g1) as [rest' g2].
      destruct i as [|i]; simpl in *; [congruence|by apply IH].
    + specialize (IH g). destruct (reroll_ones rest g) as [rest' g2].
      destruct i as [|i]; simpl in *; [done|by apply IH].
Qed.

End Rerolls.

(** ** What the prompting loops read, write and raise *)

Definition prompts (new : list event) : Prop :=
  Forall (λ e, prompting e = true) new.

Lemma prompts_app new new' : prompts new → prompts new' → prompts (new ++ new').
Proof. unfold prompts. rewrite Forall_app. auto. Qed.

Ltac io_grow IH :=
  match goal with
  | |- context [prompt_score ?f ?a ?ls ?s ?q ?o] =>
      let Hs := fresh "Hs" in
      let new := fresh "new" in
      let Hw := fresh "Hw" in
      let Hn := fresh "Hn" in
      destruct (IH s q o) as [Hs (new & Hw & Hn)]; simpl in Hs, Hw;
      split; [by apply suffix_cons_r|];
      rewrite Hw, <- ?app_assoc; eexists; split; [reflexivity|];
      repeat apply prompts_app; first [done | by repeat constructor]
  end.

Ltac io_stop :=
  split; [first [done | by apply suffix_cons_r]|];
  first [ by (exists []; split; [by rewrite app_nil_r|constructor])
        | by (eexists; split; [reflexivity|by repeat constructor]) ].

Section Streams.
Variable int : string → option Z.

(** The loop of one ability reads the lines in order and only adds prompts
    and rejections to what has been written. *)
Lemma prompt_score_io ability lines scores p out :
  let c := (state_of (prompt_score int ability lines scores p out)).2 in
  unread c `suffix_of` lines ∧
  ∃ new, written c = out ++ new ∧ prompts new.
Proof.
  revert scores p out.
  induction lines as [|line lines IH]; intros scores p out; simpl.
  - prompt_cases; simpl; io_stop.
  - prompt_cases; simpl; first [io_stop | io_grow IH].
Qed.

Lemma prompt_scores_io names lines scores p out :
  let c := (state_of (prompt_scores int names lines scores p out)).2 in
  unread c `suffix_of` lines ∧
  ∃ new, written c = out ++ new ∧ prompts new.
Proof.
  revert lines scores p out.
  induction names as [|ability names IH]; intros lines scores p out; simpl.
  - io_stop.
  - pose proof (prompt_score_io ability lines scores p out) as Hone.
    destruct (prompt_score int ability lines scores p out)
      as [[scores1 c1]|e [scores1 c1]]; simpl in *; [|done].
    destruct Hone as [Hs (new & Hw & Hn)].
    destruct (IH (unread c1) scores1 (who c1) (written c1))
      as [Hs' (new' & Hw' & Hn')].
    split; [by etrans|].
    exists (new ++ new'). rewrite Hw', Hw, app_assoc.
    split; [done|by apply prompts_app].
Qed.

(** The only exceptions of the loop of one ability that is a key of the
    dict: [EOFError] once every line has been read, [ValueError] on a line
    that is not an [int]. *)
Lemma prompt_score_raises ability lines scores p out e scores' c :
  is_Some (dict_get ability (abilities p)) →
  prompt_score int ability lines scores p out = Raised e (scores', c) →
  (e = EOFError ∧ unread c = []) ∨
  (e = ValueError ∧ ∃ line, line ∈ lines ∧ int line = None).
Proof.
  revert scores p out.
  induction lines as [|line lines IH]; intros scores p out [v Hv]; simpl.
  - rewrite Hv. destruct (falsy v); [|done]. intros [= <- <- <-]. by left.
  - rewrite Hv. destruct (falsy v); [|done].
    destruct (int line) as [score|] eqn:Hread.
    + case_decide as Hin.
      * destruct (list_remove_elem score scores Hin) as [scores1 ->].
        intros Hr.
        apply IH in Hr; [|simpl; rewrite dict_get_set_eq; by eexists].
        destruct Hr as [?|(-> & l & Hl & Hnone)]; [by left|].
        right. split; [done|].
        exists l. split; [by apply list_elem_of_further|done].
      * intros Hr. apply IH in Hr; [|by eexists].
        destruct Hr as [?|(-> & l & Hl & Hnone)]; [by left|].
        right. split; [done|].
        exists l. split; [by apply list_elem_of_further|done].
    + intros [= <- <- <-]. right. split; [done|].
      exists line. split; [apply list_elem_of_here|done].
Qed.

Lemma prompt_scores_raises names lines scores p out e scores' c :
  (∀ k, k ∈ names → k ∈ keys (abilities p)) →
  prompt_scores int names lines scores p out = Raised e (scores', c) →
  (e = EOFError ∧ unread c = []) ∨
  (e = ValueError ∧ ∃ line, line ∈ lines ∧ int line = None).
Proof.
  revert lines scores p out.
  induction names as [|ability names IH]; intros lines scores p out Hkeys;
    simpl; [done|].
  pose proof (prompt_score_frame int ability lines scores p out) as [_ Hsame].
  pose proof (prompt_score_io ability lines scores p out) as [Hsuffix _].
  destruct (prompt_score int ability lines scores p out)
    as [[scores1 c1]|e1 [scores1 c1]] eqn:Hone; simpl in *.
  - intros Hrest. apply IH in Hrest.
    + destruct Hrest as [?|(-> & l & Hl & Hnone)]; [by left|].
      right. split; [done|]. exists l. split; [|done].
      by eapply elem_of_suffix.
    + intros k Hk. rewrite Hsame. by apply Hkeys, list_elem_of_further.
  - intros [= <- <- <-]. eapply prompt_score_raises; [|exact Hone].
    apply dict_get_keys, Hkeys, list_elem_of_here.
Qed.

(** A loop that returns from an unset ability has accepted a selection. *)
Lemma prompt_score_done_pick ability lines scores p out scores' c :
  dict_get ability (abilities p) = Some 0 →
  prompt_score int ability lines scores p out = Done (scores', c) →
  valid_picks int lines scores ≠ [].
Proof.
  intros Hget. revert out.
  induction lines as [|line lines IH]; intros out.
  - simpl. by rewrite Hget.
  - rewrite prompt_score_turn by done. simpl.
    destruct (int line) as [score|]; [|done].
    case_decide as Hin; [|apply IH].
    by destruct (list_remove score scores).
Qed.

Lemma prompt_scores_done_picks names lines scores p out scores' c :
  NoDup names →
  (∀ k, k ∈ names → dict_get k (abilities p) = Some 0) →
  0 ∉ scores →
  prompt_scores int names lines scores p out = Done (scores', c) →
  (length names ≤ length (valid_picks int lines scores))%nat.
Proof.
  intros Hnd. revert lines scores p out.
  induction Hnd as [|k names Hk Hnd IH];
    intros lines scores p out Hunset Hzero; simpl; [lia|].
  assert (Hk0 : dict_get k (abilities p) = Some 0).
  { apply Hunset, list_elem_of_here. }
  destruct (prompt_score int k lines scores p out)
    as [[scores1 c1]|e1 [scores1 c1]] eqn:Hone; [|done].
  pose proof (prompt_score_done_pick _ _ _ _ _ _ _ Hk0 Hone) as Hsome.
  destruct (valid_picks int lines scores) as [|s rest] eqn:Hp; [done|].
  destruct (prompt_score_pick int k lines scores p out s rest Hk0 Hzero Hp)
    as (scores2 & lines2 & out2 & Hrun & Hrm & Hrest).
  rewrite Hrun in Hone. injection Hone as <- <-. simpl.
  intros Hdone. apply IH in Hdone.
  - rewrite Hrest in Hdone. simpl. lia.
  - intros k' Hk'. simpl. rewrite dict_get_set_ne by (by intros ->).
    by apply Hunset, list_elem_of_further.
  - intros Hin. apply Hzero.
    rewrite (list_remove_perm _ _ _ Hrm). by apply list_elem_of_further.
Qed.

(** *** The loop of [set_race] *)

Lemma race_member_set r : r ∈ races → unset (Some r) = false.
Proof.
  intros Hin. simpl. apply bool_decide_eq_false. intros ->.
  revert Hin. by apply (bool_decide_unpack _).
Qed.

Lemma prompt_race_skip lines p out :
  unset (race p) = false →
  prompt_race lines p out = Done (Build_Console p lines out).
Proof. intros Hset. destruct lines; simpl; by rewrite Hset. Qed.

Lemma prompt_race_done lines p out c :
  prompt_race lines p out = Done c → unset (race (who c)) = false.
Proof.
  revert p out. induction lines as [|line lines IH]; intros p out; simpl.
  - destruct (unset (race p)) eqn:Hu; [done|]. by intros [= <-].
  - destruct (unset (race p)) eqn:Hu; [|by intros [= <-]].
    case_decide; apply IH.
Qed.

(** Lines that are no race are rejected one by one; the first line that
    is one is stored, and the lines behind it are left unread. *)
Lemma prompt_race_first bad good rest p out :
  unset (race p) = true →
  Forall (λ line, line ∉ races) bad → good ∈ races →
  prompt_race (bad ++ good :: rest) p out =
    Done (Build_Console (with_race (Some good) p) rest
            (out ++ rejected_races (length bad) ++
             [PrintRaces races; PromptRace])).
Proof.
  intros Hu Hbad Hgood. revert out.
  induction Hbad as [|line bad Hline Hbad IH]; intros out;
    cbn [app length rejected_races prompt_race]; rewrite Hu.
  - rewrite decide_True by done.
    by rewrite prompt_race_skip by (by apply race_member_set).
  - rewrite decide_False by done. rewrite IH.
    by rewrite <- !app_assoc.
Qed.

(** Without such a line every line is rejected and the next prompt
    raises [EOFError]; nothing is stored. *)
Lemma prompt_race_none lines p out :
  unset (race p) = true →
  Forall (λ line, line ∉ races) lines →
  prompt_race lines p out =
    Raised EOFError
      (Build_Console p []
         (out ++ rejected_races (length lines) ++
          [PrintRaces races; PromptRace])).
Proof.
  intros Hu Hbad. revert out.
  induction Hbad as [|line bad Hline Hbad IH]; intros out;
    cbn [length rejected_races prompt_race]; rewrite Hu.
  - done.
  - rewrite decide_False by done. rewrite IH.
    by rewrite <- !app_assoc.
Qed.

Lemma prompt_race_raises lines p out e c :
  prompt_race lines p out = Raised e c →
  e = EOFError ∧ unread c = [] ∧ who c = p ∧
  Forall (λ line, line ∉ races) lines.
Proof.
  revert out. induction lines as [|line lines IH]; intros out; simpl.
  - destruct (unset (race p)); [|done]. by intros [= <- <-].
  - destruct (unset (race p)) eqn:Hu; [|done].
    case_decide as Hin.
    + by rewrite prompt_race_skip by (by apply race_member_set).
    + intros Hr. apply IH in Hr as (-> & ? & ? & ?). by repeat constructor.
Qed.

Lemma prompt_race_io lines p out :
  let c := state_of (prompt_race lines p out) in
  unread c `suffix_of` lines ∧
  ∃ new, written c = out ++ new ∧ prompts new.
Proof.
  revert p out. induction lines as [|line lines IH]; intros p out; simpl.
  - destruct (unset (race p)); simpl; io_stop.
  - destruct (unset (race p)); simpl; [|io_stop].
    case_decide.
    + destruct (IH (with_race (Some line) p)
        (out ++ [PrintRaces races; PromptRace])) as [Hs (new & Hw & Hn)].
      split; [by apply suffix_cons_r|].
      rewrite Hw, <- app_assoc. eexists. split; [reflexivity|].
      apply prompts_app; [by repeat constructor|done].
    + destruct (IH p ((out ++ [PrintRaces races; PromptRace]) ++
        [InvalidChoice])) as [Hs (new & Hw & Hn)].
      split; [by apply suffix_cons_r|].
      rewrite Hw, <- !app_assoc. eexists. split; [reflexivity|].
      repeat apply prompts_app; first [done | by repeat constructor].
Qed.

End Streams.

(** ** More on the methods *)

Section Interactive.
Variable int : string → option Z.

Lemma valid_picks_length lines scores :
  (length (valid_picks int lines scores) ≤ length scores)%nat.
Proof.
  revert scores. induction lines as [|line lines IH]; intros scores; simpl;
    [lia|].
  destruct (int line) as [score|]; [|simpl; lia].
  case_decide; [|apply IH].
  destruct (list_remove score scores) as [scores'|] eqn:Hrm; [|simpl; lia].
  specialize (IH scores'). rewrite (list_remove_perm _ _ _ Hrm). simpl. lia.
Qed.

(** On abilities that are all unset, a loop that returns has stored the
    accepted selections in order and used up the scores. *)
Lemma prompt_scores_fresh lines scores p out scores' c :
  NoDup (keys (abilities p)) →
  (∀ v, v ∈ values (abilities p) → v = 0) →
  0 ∉ scores →
  length scores = length (abilities p) →
  prompt_scores int (keys (abilities p)) lines scores p out =
    Done (scores', c) →
  scores' = [] ∧
  abilities (who c) =
    zip (keys (abilities p)) (valid_picks int lines scores) ∧
  valid_picks int lines scores ≡ₚ scores.
Proof.
  intros Hnd Hunset Hzero Hlen Hdone.
  assert (Hkeys : length (keys (abilities p)) = length (abilities p)).
  { unfold keys. apply length_fmap. }
  assert (Hzeroes : ∀ k, k ∈ keys (abilities p) →
                         dict_get k (abilities p) = Some 0).
  { intros k Hk. destruct (dict_get_keys _ _ Hk) as [v Hv]. rewrite Hv.
    f_equal. by eapply Hunset, dict_get_values. }
  pose proof (prompt_scores_done_picks int _ _ _ _ _ _ _ Hnd Hzeroes Hzero
    Hdone) as Hge.
  pose proof (valid_picks_length lines scores) as Hle.
  destruct (prompt_scores_picks int _ lines scores p out Hnd Hzeroes Hzero
    Hge) as (scores2 & c2 & Hrun & Hab & Hperm).
  rewrite Hrun in Hdone. injection Hdone as -> ->.
  set (picks := valid_picks int lines scores) in *.
  rewrite take_ge in Hperm by lia.
  assert (Hnone : scores' = []).
  { apply nil_length_inv. pose proof (Permutation_length Hperm) as Hl.
    rewrite length_app in Hl. lia. }
  subst scores'. rewrite app_nil_r in Hperm.
  split; [done|]. split; [|done].
  rewrite Hab. apply values_assign_zip; [done|lia].
Qed.

(** With every ability set, the [for] loop goes through without a prompt. *)
Lemma prompt_scores_all_set names lines scores p out :
  0 ∉ values (abilities p) →
  (∀ k, k ∈ names → k ∈ keys (abilities p)) →
  prompt_scores int names lines scores p out =
    Done (scores, Build_Console p lines out).
Proof.
  intros Hz. induction names as [|k names IH]; intros Hkeys; simpl; [done|].
  destruct (dict_get_keys k (abilities p)) as [v Hv].
  { apply Hkeys, list_elem_of_here. }
  rewrite (prompt_score_skip int k lines scores p out v Hv).
  - simpl. apply IH. intros k' Hk'. by apply Hkeys, list_elem_of_further.
  - intros ->. by apply Hz, (dict_get_values k).
Qed.

End Interactive.

Section Calls.
Context {G : Type} `{Random G}.
Variable int : string → option Z.

Implicit Types (w : World G).

Lemma resume_same w : resume w (rng w) (Build_Console (self w) (stdin w)
                                         (stdout w)) = w.
Proof. by destruct w. Qed.

(** X3: on a player whose six abilities are all 0, a call of
    [set_abilities(False)] that returns has handed out exactly the six
    generated scores: the dict holds the accepted selections of the input
    in the order of the abilities, and they are a permutation of the
    scores. *)
Theorem set_abilities_prompt_hands_out_scores w w' :
  keys (abilities (self w)) = ability_names →
  (∀ v, v ∈ values (abilities (self w)) → v = 0) →
  set_abilities int false w = Done w' →
  let scores := (generate_scores 6 (rng w)).1 in
  abilities (self w') = zip ability_names (valid_picks int (stdin w) scores) ∧
  values (abilities (self w')) ≡ₚ scores ∧
  rng w' = (generate_scores 6 (rng w)).2.
Proof.
  intros Hkeys Hunset. unfold set_abilities.
  pose proof (generate_scores_length 6 (rng w)) as Hlen.
  pose proof (generate_scores_bounds 6 (rng w)) as Hbounds.
  destruct (generate_scores 6 (rng w)) as [scores g1].
  simpl in Hlen, Hbounds.
  destruct (prompt_scores int (keys (abilities (self w))) (stdin w) scores
    (self w) (stdout w)) as [[scores' c]|e [scores' c]] eqn:Hrun; [|done].
  intros [= <-]. simpl.
  apply prompt_scores_fresh in Hrun as (_ & Hab & Hperm).
  - rewrite Hkeys in Hab. rewrite Hab. split; [done|]. split; [|done].
    unfold values. rewrite snd_zip; [done|].
    rewrite (Permutation_length Hperm), Hlen. simpl. lia.
  - rewrite Hkeys. apply NoDup_ability_names.
  - done.
  - intros Hin. eapply Forall_forall in Hbounds; [|done]. simpl in *. lia.
  - unfold keys in Hkeys. by rewrite Hlen, <- (length_fmap fst), Hkeys.
Qed.

(** X4: [set_abilities] raises only when prompting, and then only
    [EOFError], with every line of the input read, or [ValueError], on an
    input with a line that is not an [int]; it never raises [KeyError]. *)
Theorem set_abilities_raises b w e w' :
  set_abilities int b w = Raised e w' →
  b = false ∧
  ((e = EOFError ∧ stdin w' = []) ∨
   (e = ValueError ∧ ∃ line, line ∈ stdin w ∧ int line = None)).
Proof.
  unfold set_abilities.
  destruct (generate_scores 6 (rng w)) as [scores g1].
  destruct b; [by destruct (shuffle scores g1)|].
  destruct (prompt_scores int (keys (abilities (self w))) (stdin w) scores
    (self w) (stdout w)) as [[scores' c]|e' [scores' c]] eqn:Hrun; [done|].
  intros [= <- <-]. split; [done|]. simpl.
  by eapply prompt_scores_raises.
Qed.

(** X5: [set_race] raises only when prompting, only [EOFError], and only
    after every line of the input has been read and none of them was a
    valid race; the player is then as before. *)
Theorem set_race_raises b w e w' :
  set_race b w = Raised e w' →
  b = false ∧ e = EOFError ∧ stdin w' = [] ∧ self w' = self w ∧
  Forall (λ line, line ∉ races) (stdin w).
Proof.
  unfold set_race. destruct b.
  - pose proof (choice_elem races (rng w)) as Hc.
    by destruct (choice races (rng w)) as [[r|] g1].
  - destruct (prompt_race (stdin w) (self w) (stdout w)) as [c|e' c] eqn:Hrun;
      [done|].
    intros [= <- <-]. simpl.
    by apply prompt_race_raises in Hrun as (-> & ? & ? & ?).
Qed.

(** X6: with no race set, [set_race(False)] rejects the lines that are not
    a valid race, each with "Invalid choice!" after its prompt, stores the
    first line that is one, and leaves the lines behind it unread. *)
Theorem set_race_prompt_first_valid w bad good rest :
  unset (race (self w)) = true →
  stdin w = bad ++ good :: rest →
  Forall (λ line, line ∉ races) bad → good ∈ races →
  set_race false w =
    Done {| self := with_race (Some good) (self w);
            rng := rng w;
            stdin := rest;
            stdout := stdout w ++ rejected_races (length bad) ++
                      [PrintRaces races; PromptRace] |}.
Proof.
  intros Hu Hin Hbad Hgood. unfold set_race.
  by rewrite Hin, (prompt_race_first bad good rest _ _ Hu Hbad Hgood).
Qed.

(** X7: [set_race(False)] sets the race once: on a player whose race is
    set it returns at once and changes nothing, so a second call after one
    that returned changes nothing. *)
Theorem set_race_prompt_once w :
  (unset (race (self w)) = false → set_race false w = Done w) ∧
  (∀ w', set_race false w = Done w' → set_race false w' = Done w').
Proof.
  assert (Hset : ∀ v, unset (race (self v)) = false →
                      set_race false v = Done v).
  { intros v Hv. unfold set_race. rewrite prompt_race_skip by done.
    by rewrite resume_same. }
  split; [apply Hset|].
  intros w' Hdone. apply Hset. revert Hdone. unfold set_race.
  destruct (prompt_race (stdin w) (self w) (stdout w)) as [c|e c] eqn:Hrun;
    [|done].
  intros [= <-]. simpl. by eapply prompt_race_done.
Qed.

(** X8: on a player without a 0 among the abilities, [set_abilities(False)]
    asks nothing: it returns with the player, the input and the output as
    they were; only the generator has moved on by the six scores that were
    generated and not used. *)
Theorem set_abilities_prompt_nothing_to_ask w :
  0 ∉ values (abilities (self w)) →
  set_abilities int false w =
    Done {| self := self w;
            rng := (generate_scores 6 (rng w)).2;
            stdin := stdin w;
            stdout := stdout w |}.
Proof.
  intros Hz. unfold set_abilities.
  destruct (generate_scores 6 (rng w)) as [scores g1].
  by rewrite prompt_scores_all_set.
Qed.

End Calls.

(** ** More on [set_racial_traits] *)

Lemma dict_get_None_keys k d : dict_get k d = None → k ∉ keys d.
Proof.
  intros Hnone Hin. apply dict_get_keys in Hin as [v Hv]. congruence.
Qed.

Section Bonus.
Context {G : Type}.

Implicit Types (w : World G).

(** With abilities and race set, the call adds the bonus of the race to
    every ability and touches nothing else. *)
Lemma traits_apply_bonus w r :
  keys (abilities (self w)) = ability_names →
  0 ∉ values (abilities (self w)) →
  race (self w) = Some r → r ∈ races →
  ∃ d,
    set_racial_traits w = Done (store d w) ∧
    keys d = ability_names ∧
    ∀ k v, dict_get k (abilities (self w)) = Some v →
           dict_get k d = Some (v + racial_bonus r k).
Proof.
  intros Hkeys Hz Hr Hin. unfold races in Hin.
  apply elem_of_cons in Hin as [->|Hin].
  - destruct (dict_get_keys "charisma" (abilities (self w))) as [c Hc].
    { rewrite Hkeys. apply (bool_decide_unpack _). by vm_compute. }
    destruct (dict_get_keys "dexterity" (abilities (self w))) as [x Hx].
    { rewrite Hkeys. apply (bool_decide_unpack _). by vm_compute. }
    eexists. split; [by apply high_elf_bonus|]. split.
    + rewrite !keys_dict_set; [done|by eapply dict_get_Some_keys|].
      rewrite keys_dict_set; by eapply dict_get_Some_keys.
    + intros k v Hk. unfold racial_bonus. rewrite decide_True by done.
      destruct (decide (k = "charisma")) as [->|Hk1].
      { rewrite dict_get_set_ne, dict_get_set_eq by done. congruence. }
      destruct (decide (k = "dexterity")) as [->|Hk2].
      { rewrite dict_get_set_eq. congruence. }
      rewrite !dict_get_set_ne by done. rewrite Hk. f_equal. lia.
  - apply list_elem_of_singleton in Hin as ->.
    exists (abilities (self w)). split; [|split; [done|]].
    + apply existsb_falsy_false in Hz.
      unfold set_racial_traits. rewrite Hz, Hr. simpl.
      unfold store. rewrite with_abilities_id. by destruct w.
    + intros k v Hk. rewrite Hk. unfold racial_bonus.
      rewrite decide_False by done. f_equal. lia.
Qed.

(** X9: [set_racial_traits] can only raise [KeyError], for a key that the
    dict lacks: for "charisma" with nothing changed, for "dexterity" after
    charisma has already been raised by one.  With the six keys it always
    returns. *)
Theorem set_racial_traits_raises w :
  (∀ e w', set_racial_traits w = Raised e w' →
     (e = KeyError "charisma" ∧ ("charisma" ∉ keys (abilities (self w))) ∧
      w' = w) ∨
     (e = KeyError "dexterity" ∧ ("dexterity" ∉ keys (abilities (self w))) ∧
      ∃ c, dict_get "charisma" (abilities (self w)) = Some c ∧
           w' = store (dict_set "charisma" (c + 1) (abilities (self w))) w)) ∧
  (keys (abilities (self w)) = ability_names →
   is_done (set_racial_traits w) = true).
Proof.
  assert (Hraise : ∀ e w', set_racial_traits w = Raised e w' →
     (e = KeyError "charisma" ∧ ("charisma" ∉ keys (abilities (self w))) ∧
      w' = w) ∨
     (e = KeyError "dexterity" ∧ ("dexterity" ∉ keys (abilities (self w))) ∧
      ∃ c, dict_get "charisma" (abilities (self w)) = Some c ∧
           w' = store (dict_set "charisma" (c + 1) (abilities (self w))) w)).
  { intros e w'. unfold set_racial_traits.
    destruct (existsb falsy _); [done|].
    destruct (unset _); [done|].
    case_decide; [|done].
    destruct (dict_get "charisma" _) as [c|] eqn:Hc.
    - destruct (dict_get "dexterity" _) as [x|] eqn:Hx; [done|].
      intros [= <- <-]. right. split; [done|]. split; [|by exists c].
      rewrite dict_get_set_ne in Hx by done. by apply dict_get_None_keys.
    - intros [= <- <-]. left. split; [done|]. split; [|done].
      by apply dict_get_None_keys. }
  split; [exact Hraise|].
  intros Hkeys. destruct (set_racial_traits w) as [w'|e w'] eqn:Hrun; [done|].
  destruct (Hraise e w' eq_refl) as [(_ & Hno & _)|(_ & Hno & _)];
    exfalso; apply Hno; rewrite Hkeys;
    apply (bool_decide_unpack _); by vm_compute.
Qed.

(** X10: there is no cap on the bonus: on a High Elf with positive scores,
    [n] calls of [set_racial_traits] in a row all return, and leave
    charisma [n] higher and dexterity [2 n] higher, the other abilities
    unchanged. *)
Theorem repeat_traits_high_elf (n : nat) w c x :
  (∀ v, v ∈ values (abilities (self w)) → 0 < v) →
  race (self w) = Some "High Elf" →
  dict_get "charisma" (abilities (self w)) = Some c →
  dict_get "dexterity" (abilities (self w)) = Some x →
  ∃ w',
    repeat_traits n w = Done w' ∧
    dict_get "charisma" (abilities (self w')) = Some (c + Z.of_nat n) ∧
    dict_get "dexterity" (abilities (self w')) = Some (x + 2 * Z.of_nat n) ∧
    (∀ k, k ≠ "charisma" → k ≠ "dexterity" →
          dict_get k (abilities (self w')) = dict_get k (abilities (self w))).
Proof.
  revert w c x. induction n as [|n IH]; intros w c x Hpos Hr Hc Hx.
  - exists w. simpl. rewrite Hc, Hx. repeat split; try done; f_equal; lia.
  - assert (Hz : 0 ∉ values (abilities (self w))).
    { intros Hin. apply Hpos in Hin. lia. }
    assert (Hc0 : 0 < c) by (by eapply Hpos, dict_get_values).
    assert (Hx0 : 0 < x) by (by eapply Hpos, dict_get_values).
    cbn [repeat_traits]. rewrite (high_elf_bonus w c x) by done.
    cbn [and_then].
    set (d1 := dict_set "dexterity" (x + 2)
                 (dict_set "charisma" (c + 1) (abilities (self w)))).
    destruct (IH (store d1 w) (c + 1) (x + 2)) as (w' & Hrun & Hc' & Hx' & Ho).
    + simpl. intros v Hin. unfold d1 in Hin.
      apply values_dict_set in Hin as [->|Hin]; [lia|].
      apply values_dict_set in Hin as [->|Hin]; [lia|auto].
    + done.
    + simpl. unfold d1. by rewrite dict_get_set_ne, dict_get_set_eq.
    + simpl. unfold d1. by rewrite dict_get_set_eq.
    + exists w'. split; [done|].
      split; [rewrite Hc'; f_equal; lia|].
      split; [rewrite Hx'; f_equal; lia|].
      intros k Hk1 Hk2. rewrite Ho by done. simpl. unfold d1.
      by rewrite !dict_get_set_ne.
Qed.

End Bonus.

(** ** [setup_player] *)

Lemma racial_bonus_range r k : 0 ≤ racial_bonus r k ≤ 2.
Proof. unfold racial_bonus. repeat case_decide; lia. Qed.

Section Setup.
Context {G : Type} `{Random G}.
Variable int : string → option Z.

Implicit Types (w : World G).

(** The two ways out of [set_abilities(False)] on a new player. *)
Lemma set_abilities_prompt_outcome w :
  keys (abilities (self w)) = ability_names →
  (∀ v, v ∈ values (abilities (self w)) → v = 0) →
  let scores := (generate_scores 6 (rng w)).1 in
  match set_abilities int false w with
  | Done w' =>
      abilities (self w') =
        zip ability_names (valid_picks int (stdin w) scores) ∧
      valid_picks int (stdin w) scores ≡ₚ scores ∧
      self w' = with_abilities (abilities (self w')) (self w)
  | Raised e w' =>
      (e = EOFError ∧ stdin w' = []) ∨
      (e = ValueError ∧ ∃ line, line ∈ stdin w ∧ int line = None)
  end.
Proof.
  intros Hkeys Hunset. unfold set_abilities.
  pose proof (generate_scores_length 6 (rng w)) as Hlen.
  pose proof (generate_scores_bounds 6 (rng w)) as Hbounds.
  destruct (generate_scores 6 (rng w)) as [scores g1].
  simpl in Hlen, Hbounds.
  pose proof (prompt_scores_frame int (keys (abilities (self w))) (stdin w)
    scores (self w) (stdout w)) as [Hframe _].
  destruct (prompt_scores int (keys (abilities (self w))) (stdin w) scores
    (self w) (stdout w)) as [[scores' c]|e [scores' c]] eqn:Hrun; simpl in *.
  - apply prompt_scores_fresh in Hrun as (_ & Hab & Hperm).
    + rewrite Hkeys in Hab. by rewrite Hab at 1.
    + rewrite Hkeys. apply NoDup_ability_names.
    + done.
    + intros Hin. eapply Forall_forall in Hbounds; [|done]. simpl in *. lia.
    + unfold keys in Hkeys. by rewrite Hlen, <- (length_fmap fst), Hkeys.
  - by eapply prompt_scores_raises.
Qed.

(** The two ways out of [set_race(False)] without a race set. *)
Lemma set_race_prompt_outcome w :
  unset (race (self w)) = true →
  match set_race false w with
  | Done w' => ∃ r, r ∈ races ∧ self w' = with_race (Some r) (self w)
  | Raised e w' => e = EOFError ∧ stdin w' = []
  end.
Proof.
  intros Hu. unfold set_race.
  pose proof (prompt_race_frame (stdin w) (self w) (stdout w)) as [Hw Hr].
  destruct (prompt_race (stdin w) (self w) (stdout w)) as [c|e c] eqn:Hrun;
    simpl in *.
  - apply prompt_race_done in Hrun.
    destruct Hr as [Hr|(line & _ & Hin & Hr)]; [congruence|].
    exists line. split; [done|]. by rewrite Hw, Hr.
  - by apply prompt_race_raises in Hrun as (-> & ? & _).
Qed.

(** X11: what each method does to the input and the output.  The random
    modes of [set_abilities] and [set_race] read nothing and write nothing.
    The prompting modes read the lines in order, leaving a suffix of the
    input, and only add to the output, and only scores, races, prompts and
    "Invalid choice!", whether they return or raise. *)
Theorem methods_input_output w :
  let a := state_of (set_abilities int true w) in
  let r := state_of (set_race true w) in
  let a' := state_of (set_abilities int false w) in
  let r' := state_of (set_race false w) in
  (stdin a = stdin w ∧ stdout a = stdout w) ∧
  (stdin r = stdin w ∧ stdout r = stdout w) ∧
  (stdin a' `suffix_of` stdin w ∧
   ∃ new, stdout a' = stdout w ++ new ∧ prompts new) ∧
  (stdin r' `suffix_of` stdin w ∧
   ∃ new, stdout r' = stdout w ++ new ∧ prompts new).
Proof.
  unfold set_abilities, set_race.
  destruct (generate_scores 6 (rng w)) as [scores g1].
  split; [by destruct (shuffle scores g1)|].
  split; [by destruct (choice races (rng w)) as [[?|] ?]|].
  split.
  - pose proof (prompt_scores_io int (keys (abilities (self w))) (stdin w)
      scores (self w) (stdout w)) as Hio.
    by destruct (prompt_scores int (keys (abilities (self w))) (stdin w)
      scores (self w) (stdout w)) as [[? c]|e [? c]].
  - pose proof (prompt_race_io (stdin w) (self w) (stdout w)) as Hio.
    by destruct (prompt_race (stdin w) (self w) (stdout w)) as [c|e c].
Qed.

(** The scores after the bonus of any race are between 3 and 20. *)
Lemma bonus_range (base d : dict) r scores :
  keys base = keys d → values base ≡ₚ scores →
  Forall (λ s, 3 ≤ s ≤ 18) scores →
  (∀ k v, dict_get k base = Some v →
          dict_get k d = Some (v + racial_bonus r k)) →
  ∀ k v, dict_get k d = Some v → 3 ≤ v ≤ 20.
Proof.
  intros Hkeys Hperm Hbounds Hbonus k v Hv.
  destruct (dict_get_keys k base) as [v0 Hv0].
  { rewrite Hkeys. by eapply dict_get_Some_keys. }
  rewrite (Hbonus k v0 Hv0) in Hv. injection Hv as <-.
  apply dict_get_values in Hv0. rewrite Hperm in Hv0.
  eapply Forall_forall in Hbounds; [|exact Hv0]. simpl in Hbounds.
  pose proof (racial_bonus_range r k). lia.
Qed.

(** X12: [setup_player(True)] always returns, without reading or writing:
    the player has a valid race, and its six abilities are the six
    generated scores, in some order, each with the bonus of that race
    added; so every ability is between 3 and 20. *)
Theorem setup_player_random_result (g : G) lines :
  ∃ w r base,
    setup_player int true g lines = Done w ∧
    race (self w) = Some r ∧ r ∈ races ∧
    stdin w = lines ∧ stdout w = [] ∧
    keys base = ability_names ∧
    values base ≡ₚ (generate_scores 6 g).1 ∧
    keys (abilities (self w)) = ability_names ∧
    (∀ k v, dict_get k base = Some v →
            dict_get k (abilities (self w)) = Some (v + racial_bonus r k)) ∧
    (∀ k v, dict_get k (abilities (self w)) = Some v → 3 ≤ v ≤ 20).
Proof.
  unfold setup_player, set_abilities. cbn [rng self stdin stdout].
  pose proof (generate_scores_length 6 g) as Hlen.
  pose proof (generate_scores_bounds 6 g) as Hbounds.
  destruct (generate_scores 6 g) as [scores g1]. simpl in Hlen, Hbounds.
  pose proof (shuffle_perm scores g1) as Hperm.
  destruct (shuffle scores g1) as [scores' g2]. simpl in Hperm.
  destruct (values_assign_zip (abilities init) scores') as [Hzip Hvals].
  { apply NoDup_ability_names. }
  { by rewrite Hperm, Hlen. }
  set (base := assign_all (zip (keys (abilities init)) scores')
                 (abilities init)) in *.
  assert (Hkeys : keys base = ability_names) by apply keys_assign_zip.
  cbn [and_then]. unfold set_race. cbn [rng].
  pose proof (choice_elem races g2) as Hc.
  destruct (choice races g2) as [[r|] g3]; simpl in Hc; [|done].
  cbn [and_then].
  match goal with
  | |- context [set_racial_traits ?w2] =>
      destruct (traits_apply_bonus w2 r) as (d & Hrun & Hd & Hbonus);
        [exact Hkeys| |reflexivity|exact Hc|]
  end.
  { simpl. rewrite Hvals, Hperm. intros Hin.
    eapply Forall_forall in Hbounds; [|exact Hin]. simpl in Hbounds. lia. }
  eexists _, r, base. split; [exact Hrun|]. simpl in *.
  split; [done|]. split; [done|]. split; [done|]. split; [done|].
  split; [done|]. split; [by rewrite Hvals|]. split; [done|].
  split; [exact Hbonus|].
  eapply (bonus_range base d r scores); try done.
  - by rewrite Hd.
  - by rewrite Hvals.
Qed.

Lemma set_abilities_prompt_io w :
  ∃ new, stdout (state_of (set_abilities int false w)) = stdout w ++ new ∧
         prompts new.
Proof.
  unfold set_abilities. destruct (generate_scores 6 (rng w)) as [scores g1].
  pose proof (prompt_scores_io int (keys (abilities (self w))) (stdin w)
    scores (self w) (stdout w)) as [_ Hio].
  by destruct (prompt_scores int (keys (abilities (self w))) (stdin w)
    scores (self w) (stdout w)) as [[? c]|e [? c]].
Qed.

Lemma set_race_prompt_io w :
  ∃ new, stdout (state_of (set_race false w)) = stdout w ++ new ∧
         prompts new.
Proof.
  unfold set_race.
  pose proof (prompt_race_io (stdin w) (self w) (stdout w)) as [_ Hio].
  by destruct (prompt_race (stdin w) (self w) (stdout w)) as [c|e c].
Qed.

(** X13: [setup_player(False)].  Whatever the input, it never prints that
    abilities or race are not set: all it writes are the prompts.  It can
    only raise [EOFError], with the input read to the end, or [ValueError],
    on an input with a line that is not an [int].  When it returns, the
    player has a valid race, and its abilities are the accepted selections
    in order, a permutation of the six generated scores, each with the
    bonus of the race added; so every ability is between 3 and 20. *)
Theorem setup_player_prompt_result (g : G) lines :
  let scores := (generate_scores 6 g).1 in
  let res := setup_player int false g lines in
  prompts (stdout (state_of res)) ∧
  (∀ e w, res = Raised e w →
     (e = EOFError ∧ stdin w = []) ∨
     (e = ValueError ∧ ∃ line, line ∈ lines ∧ int line = None)) ∧
  (∀ w, res = Done w →
     ∃ r base,
       race (self w) = Some r ∧ r ∈ races ∧
       base = zip ability_names (valid_picks int lines scores) ∧
       values base ≡ₚ scores ∧
       keys (abilities (self w)) = ability_names ∧
       (∀ k v, dict_get k base = Some v →
               dict_get k (abilities (self w)) =
               Some (v + racial_bonus r k)) ∧
       (∀ k v, dict_get k (abilities (self w)) = Some v → 3 ≤ v ≤ 20)).
Proof.
  unfold setup_player.
  set (w0 := {| self := init; rng := g; stdin := lines; stdout := [] |}).
  assert (Hunset : ∀ v, v ∈ values (abilities (self w0)) → v = 0).
  { intros v Hv. apply list_elem_of_In in Hv. simpl in Hv. intuition. }
  pose proof (set_abilities_prompt_outcome w0 eq_refl Hunset) as Hout1.
  pose proof (set_abilities_prompt_io w0) as (new1 & Hio1 & Hnew1).
  pose proof (generate_scores_length 6 g) as Hlen.
  pose proof (generate_scores_bounds 6 g) as Hbounds.
  cbn [rng stdin w0] in Hout1.
  set (scores := (generate_scores 6 g).1) in *.
  destruct (set_abilities int false w0) as [w1|e1 w1]; cbn [and_then];
    simpl in Hio1, Hout1.
  2:{ simpl. split; [by rewrite Hio1|].
      split; [by intros e w [= <- <-]|done]. }
  destruct Hout1 as (Hab & Hperm & Hframe).
  set (picks := valid_picks int lines scores) in *.
  assert (Hu : unset (race (self w1)) = true) by (by rewrite Hframe).
  pose proof (set_race_prompt_outcome w1 Hu) as Hout2.
  pose proof (set_race_prompt_io w1) as (new2 & Hio2 & Hnew2).
  destruct (set_race false w1) as [w2|e2 w2]; cbn [and_then];
    simpl in Hio2.
  2:{ simpl. split; [rewrite Hio2, Hio1; by apply prompts_app|].
      split; [|done]. intros e w [= <- <-]. by left. }
  destruct Hout2 as (r & Hr & Hself).
  assert (Hpicks : length picks = 6%nat).
  { by rewrite (Permutation_length Hperm). }
  assert (Hab2 : abilities (self w2) = zip ability_names picks).
  { rewrite Hself. exact Hab. }
  assert (Hvals : values (abilities (self w2)) = picks).
  { rewrite Hab2. unfold values. apply snd_zip. rewrite Hpicks. simpl. lia. }
  assert (Hkeys : keys (abilities (self w2)) = ability_names).
  { rewrite Hab2. unfold keys. apply fst_zip. rewrite Hpicks. simpl. lia. }
  destruct (traits_apply_bonus w2 r) as (d & -> & Hd & Hbonus).
  { exact Hkeys. }
  { rewrite Hvals, Hperm. intros Hin.
    eapply Forall_forall in Hbounds; [|exact Hin]. simpl in Hbounds. lia. }
  { by rewrite Hself. }
  { exact Hr. }
  simpl. split; [rewrite Hio2, Hio1; by apply prompts_app|].
  split; [done|]. intros w [= <-]. simpl.
  exists r, (abilities (self w2)).
  split; [by rewrite Hself|]. split; [done|].
  split; [exact Hab2|].
  split; [by rewrite Hvals|]. split; [done|]. split; [exact Hbonus|].
  eapply (bonus_range (abilities (self w2)) d r scores); try done.
  - by rewrite Hd.
  - by rewrite Hvals.
Qed.

End Setup.

(** ** More concrete runs *)

Lemma reroll_ones_only_ones_witness :
  (1 ∉ [5; 6; 3; 4]) ∧
  reroll_ones [5; 6; 3; 4] tape0 = ([5; 6; 3; 4], tape0) ∧
  (reroll_ones [1; 6; 1; 4] tape0).1 !! 1%nat = Some 6.
Proof.
  assert (Hno : 1 ∉ [5; 6; 3; 4]) by compute_done.
  split; [exact Hno|]. split.
  - exact (proj1 (reroll_ones_only_ones [5; 6; 3; 4] tape0) Hno).
  - apply (proj1 (proj2 (reroll_ones_only_ones [1; 6; 1; 4] tape0)) 1%nat 6);
      [reflexivity|lia].
Defined.

Lemma set_abilities_prompt_hands_out_scores_witness :
  let res := set_abilities decimal false (fresh tape0 six_picks) in
  res = Done (state_of res) ∧
  values (abilities (self (state_of res))) ≡ₚ [18; 10; 12; 14; 14; 16].
Proof.
  set (res := set_abilities decimal false (fresh tape0 six_picks)).
  assert (Hrun : res = Done (state_of res)) by reflexivity.
  assert (Hunset : ∀ v,
    v ∈ values (abilities (self (fresh tape0 six_picks))) → v = 0).
  { intros v Hv. apply list_elem_of_In in Hv. simpl in Hv. intuition. }
  split; [exact Hrun|].
  exact (proj1 (proj2 (set_abilities_prompt_hands_out_scores decimal
    (fresh tape0 six_picks) (state_of res) eq_refl Hunset Hrun))).
Defined.

Lemma set_abilities_raises_witness :
  let res := set_abilities decimal false (fresh tape0 ["14"; "x"]) in
  res = Raised ValueError (state_of res) ∧
  ∃ line, line ∈ ["14"; "x"] ∧ decimal line = None.
Proof.
  set (res := set_abilities decimal false (fresh tape0 ["14"; "x"])).
  assert (Hrun : res = Raised ValueError (state_of res)) by reflexivity.
  split; [exact Hrun|].
  destruct (set_abilities_raises decimal false (fresh tape0 ["14"; "x"])
    ValueError (state_of res) Hrun) as [_ [[Heof _]|[_ Hline]]];
    [discriminate Heof|exact Hline].
Defined.

Lemma set_race_raises_witness :
  let res := set_race false (fresh [] ["Elf"; "human"]) in
  res = Raised EOFError (state_of res) ∧
  stdin (state_of res) = [] ∧ self (state_of res) = init.
Proof.
  set (res := set_race false (fresh [] ["Elf"; "human"])).
  assert (Hrun : res = Raised EOFError (state_of res)) by reflexivity.
  split; [exact Hrun|].
  destruct (set_race_raises false (fresh [] ["Elf"; "human"]) EOFError
    (state_of res) Hrun) as (_ & _ & Hin & Hself & _).
  split; [exact Hin|exact Hself].
Defined.

Lemma set_race_prompt_first_valid_witness :
  set_race false (fresh [] ["Elf"; "human"; "Human"; "High Elf"]) =
    Done {| self := with_race (Some "Human") init;
            rng := [];
            stdin := ["High Elf"];
            stdout := rejected_races 2 ++ [PrintRaces races; PromptRace] |}.
Proof.
  apply (set_race_prompt_first_valid
    (fresh [] ["Elf"; "human"; "Human"; "High Elf"])
    ["Elf"; "human"] "Human" ["High Elf"]);
    [reflexivity|reflexivity| |compute_done].
  repeat constructor; compute_done.
Defined.

Lemma set_race_prompt_once_witness :
  unset (race (self human)) = false ∧ set_race false human = Done human.
Proof.
  split; [reflexivity|].
  exact (proj1 (set_race_prompt_once human) eq_refl).
Defined.

Lemma set_abilities_prompt_nothing_to_ask_witness :
  (0 ∉ values (abilities (self high_elf))) ∧
  set_abilities decimal false high_elf = Done high_elf.
Proof.
  assert (Hz : 0 ∉ values (abilities (self high_elf))) by compute_done.
  split; [exact Hz|].
  exact (set_abilities_prompt_nothing_to_ask decimal high_elf Hz).
Defined.

Lemma set_racial_traits_raises_witness :
  let res := set_racial_traits no_dexterity in
  res = Raised (KeyError "dexterity") (state_of res) ∧
  dict_get "charisma" (abilities (self (state_of res))) = Some 11.
Proof.
  set (res := set_racial_traits no_dexterity).
  assert (Hrun : res = Raised (KeyError "dexterity") (state_of res))
    by reflexivity.
  split; [exact Hrun|].
  destruct (proj1 (set_racial_traits_raises no_dexterity)
    (KeyError "dexterity") (state_of res) Hrun)
    as [(Hk & _)|(_ & _ & c & Hc & Hw)]; [discriminate Hk|].
  rewrite Hw. injection Hc as <-. reflexivity.
Defined.

Lemma repeat_traits_high_elf_witness :
  ∃ w',
    repeat_traits 3 high_elf = Done w' ∧
    dict_get "charisma" (abilities (self w')) = Some 13 ∧
    dict_get "dexterity" (abilities (self w')) = Some 16.
Proof.
  assert (Hpos : ∀ v, v ∈ values (abilities (self high_elf)) → 0 < v).
  { intros v Hv. apply list_elem_of_In in Hv. simpl in Hv.
    intuition; subst; lia. }
  destruct (repeat_traits_high_elf 3 high_elf 10 10 Hpos eq_refl eq_refl
    eq_refl) as (w' & Hrun & Hc & Hx & _).
  exists w'. split; [exact Hrun|]. split; [exact Hc|exact Hx].
Defined.

Lemma setup_player_random_result_witness :
  ∃ w r,
    setup_player decimal true tape0 [] = Done w ∧
    race (self w) = Some r ∧ r ∈ races ∧ stdout w = [].
Proof.
  destruct (setup_player_random_result decimal tape0 [])
    as (w & r & base & Hrun & Hr & Hin & _ & Hout & _).
  exists w, r. split; [exact Hrun|]. split; [exact Hr|].
  split; [exact Hin|exact Hout].
Defined.

Lemma setup_player_prompt_result_witness :
  let res :=
    setup_player decimal false tape0 (six_picks ++ ["Elf"; "High Elf"]) in
  res = Done (state_of res) ∧
  ∃ r, race (self (state_of res)) = Some r ∧ r ∈ races ∧
       dict_get "charisma" (abilities (self (state_of res))) =
         Some (14 + racial_bonus r "charisma").
Proof.
  set (res :=
    setup_player decimal false tape0 (six_picks ++ ["Elf"; "High Elf"])).
  assert (Hrun : res = Done (state_of res)) by reflexivity.
  split; [exact Hrun|].
  destruct (proj2 (proj2 (setup_player_prompt_result decimal tape0
    (six_picks ++ ["Elf"; "High Elf"]))) (state_of res) Hrun)
    as (r & base & Hr & Hin & Hbase & _ & _ & Hbonus & _).
  exists r. split; [exact Hr|]. split; [exact Hin|].
  apply Hbonus. rewrite Hbase. reflexivity.
Defined.

(** ** The scores of a reachable player *)

Definition legal (d : dict) : Prop := Forall (λ v, 0 ≤ v) (values d).

Lemma legal_dict_set k v d : 0 ≤ v → legal d → legal (dict_set k v d).
Proof.
  unfold legal. intros Hv Hd. apply Forall_forall. intros u Hu.
  apply values_dict_set in Hu as [->|Hu]; [done|].
  by eapply Forall_forall in Hd.
Qed.

Lemma legal_assign_all pairs d :
  Forall (λ kv : string * Z, 0 ≤ kv.2) pairs → legal d →
  legal (assign_all pairs d).
Proof.
  unfold assign_all. revert d.
  induction pairs as [|[k v] pairs IH]; intros d Hp Hd; simpl; [done|].
  apply Forall_cons in Hp as [Hv Hp]. apply IH; [done|].
  by apply legal_dict_set.
Qed.

Lemma generated_scores_legal {G} `{Random G} (g : G) :
  Forall (λ s, 0 ≤ s) (generate_scores 6 g).1.
Proof.
  eapply Forall_impl; [apply generate_scores_bounds|]. simpl. lia.
Qed.

Section Legal.
Variable int : string → option Z.

(** The prompting loops only store scores that are on offer. *)
Lemma prompt_score_legal ability lines scores p out :
  Forall (λ s, 0 ≤ s) scores → legal (abilities p) →
  let r := state_of (prompt_score int ability lines scores p out) in
  Forall (λ s, 0 ≤ s) r.1 ∧ legal (abilities (who r.2)).
Proof.
  revert scores p out.
  induction lines as [|line lines IH]; intros scores p out Hs Hp; simpl.
  - by prompt_cases.
  - prompt_cases; simpl; try done; try (by apply IH).
    + apply IH.
      * match goal with
        | Hrm : list_remove _ _ = Some _ |- _ =>
            apply list_remove_perm in Hrm; rewrite Hrm in Hs
        end.
        by apply Forall_cons in Hs as [_ ?].
      * simpl. apply legal_dict_set; [|done].
        by eapply Forall_forall in Hs.
    + split; [done|]. apply legal_dict_set; [|done].
      by eapply Forall_forall in Hs.
Qed.

Lemma prompt_scores_legal names lines scores p out :
  Forall (λ s, 0 ≤ s) scores → legal (abilities p) →
  let r := state_of (prompt_scores int names lines scores p out) in
  Forall (λ s, 0 ≤ s) r.1 ∧ legal (abilities (who r.2)).
Proof.
  revert lines scores p out.
  induction names as [|ability names IH]; intros lines scores p out Hs Hp;
    simpl; [done|].
  pose proof (prompt_score_legal ability lines scores p out Hs Hp) as Hone.
  destruct (prompt_score int ability lines scores p out)
    as [[scores1 c1]|e [scores1 c1]]; simpl in *; [|done].
  destruct Hone as [Hs1 Hp1]. by apply IH.
Qed.

End Legal.

Section Twice.
Context {G : Type} `{Random G}.
Variable int : string → option Z.

Implicit Types (w : World G).

Lemma set_abilities_legal b w :
  legal (abilities (self w)) →
  legal (abilities (self (state_of (set_abilities int b w)))).
Proof.
  intros Hp. unfold set_abilities.
  pose proof (generated_scores_legal (rng w)) as Hs.
  destruct (generate_scores 6 (rng w)) as [scores g1]. simpl in Hs.
  destruct b.
  - pose proof (shuffle_perm scores g1) as Hperm.
    destruct (shuffle scores g1) as [scores' g2]. simpl in *.
    apply legal_assign_all; [|done].
    apply Forall_forall. intros [k v] Hin. simpl.
    apply elem_of_zip_r in Hin. rewrite Hperm in Hin.
    by eapply Forall_forall in Hs.
  - pose proof (prompt_scores_legal int (keys (abilities (self w))) (stdin w)
      scores (self w) (stdout w) Hs Hp) as [_ Hlegal].
    by destruct (prompt_scores int (keys (abilities (self w))) (stdin w)
      scores (self w) (stdout w)) as [[? c]|e [? c]].
Qed.

Lemma set_racial_traits_legal w :
  legal (abilities (self w)) →
  legal (abilities (self (state_of (set_racial_traits w)))).
Proof.
  intros Hp. unfold set_racial_traits.
  destruct (existsb falsy _); [done|].
  destruct (unset _); [done|].
  case_decide; [|done].
  destruct (dict_get "charisma" _) as [c|] eqn:Hc; [|done].
  assert (H1 : legal (dict_set "charisma" (c + 1) (abilities (self w)))).
  { apply legal_dict_set; [|done].
    apply dict_get_values in Hc. eapply Forall_forall in Hp; [|exact Hc].
    simpl in Hp. lia. }
  destruct (dict_get "dexterity" _) as [x|] eqn:Hx; simpl; [|done].
  apply legal_dict_set; [|done].
  apply dict_get_values in Hx. eapply Forall_forall in H1; [|exact Hx].
  simpl in H1. lia.
Qed.

(** Every reachable player has the six ability keys and no negative
    score: the scores are only ever written as 0, as a generated score,
    or raised by a bonus. *)
Lemma reachable_legal w :
  reachable int w →
  keys (abilities (self w)) = ability_names ∧ legal (abilities (self w)).
Proof.
  induction 1 as [g lines out|w g lines out _ IH|b w _ [Hk Hl]
                 |b w _ [Hk Hl]|w _ [Hk Hl]].
  - split; [reflexivity|]. by repeat constructor.
  - exact IH.
  - split; [|by apply set_abilities_legal].
    by rewrite (proj2 (set_abilities_frame int b w)).
  - by rewrite (set_race_frame b w).
  - split; [|by apply set_racial_traits_legal].
    by rewrite (proj2 (set_racial_traits_frame w)).
Qed.

(** What [setup_player] ends in is reachable. *)
Lemma setup_player_reachable b (g : G) lines :
  reachable int (state_of (setup_player int b g lines)).
Proof.
  unfold setup_player.
  destruct b; repeat apply (and_then_inv (reachable int));
    try (intros; by constructor);
    apply reach_set_abilities, reach_init.
Qed.

(** C7: [set_racial_traits] is not idempotent for "High Elf": for every
    player that the program can build, with all six abilities nonzero and
    race "High Elf", two calls in a row both return and apply the bonus
    twice: charisma ends two higher and dexterity four higher than before
    the first call, the other abilities and the keys unchanged. *)
Theorem set_racial_traits_applied_twice w :
  reachable int w →
  0 ∉ values (abilities (self w)) →
  race (self w) = Some "High Elf" →
  ∃ c x w1 w2,
    dict_get "charisma" (abilities (self w)) = Some c ∧
    dict_get "dexterity" (abilities (self w)) = Some x ∧
    set_racial_traits w = Done w1 ∧
    set_racial_traits w1 = Done w2 ∧
    dict_get "charisma" (abilities (self w1)) = Some (c + 1) ∧
    dict_get "dexterity" (abilities (self w1)) = Some (x + 2) ∧
    dict_get "charisma" (abilities (self w2)) = Some (c + 2) ∧
    dict_get "dexterity" (abilities (self w2)) = Some (x + 4) ∧
    (∀ k, k ≠ "charisma" → k ≠ "dexterity" →
          dict_get k (abilities (self w2)) = dict_get k (abilities (self w))) ∧
    keys (abilities (self w2)) = ability_names.
Proof.
  intros Hreach Hz Hr.
  destruct (reachable_legal w Hreach) as [Hkeys Hlegal].
  destruct (dict_get_keys "charisma" (abilities (self w))) as [c Hc].
  { rewrite Hkeys. apply (bool_decide_unpack _). by vm_compute. }
  destruct (dict_get_keys "dexterity" (abilities (self w))) as [x Hx].
  { rewrite Hkeys. apply (bool_decide_unpack _). by vm_compute. }
  assert (Hpos : ∀ k v, dict_get k (abilities (self w)) = Some v → 0 < v).
  { intros k v Hv. apply dict_get_values in Hv.
    assert (v ≠ 0) by (by intros ->).
    eapply Forall_forall in Hlegal; [|exact Hv]. simpl in Hlegal. lia. }
  pose proof (Hpos _ _ Hc) as Hc0. pose proof (Hpos _ _ Hx) as Hx0.
  destruct (set_racial_traits_twice w c x Hkeys Hz Hr Hc Hx)
    as (w1 & w2 & H1 & H2 & Hc2 & Hx2 & Hother & Hkeys2); [lia|lia|].
  exists c, x, w1, w2.
  split; [done|]. split; [done|]. split; [done|]. split; [done|].
  rewrite (high_elf_bonus w c x Hz Hr Hc Hx) in H1. injection H1 as <-.
  simpl. split; [by rewrite dict_get_set_ne, dict_get_set_eq|].
  split; [by rewrite dict_get_set_eq|]. done.
Qed.

End Twice.

Lemma set_racial_traits_applied_twice_witness :
  let w := state_of (set_race true
             (state_of (set_abilities decimal true (fresh tape0 [])))) in
  reachable decimal w ∧
  (0 ∉ values (abilities (self w))) ∧
  race (self w) = Some "High Elf" ∧
  ∃ w1 w2,
    set_racial_traits w = Done w1 ∧
    set_racial_traits w1 = Done w2 ∧
    dict_get "charisma" (abilities (self w)) = Some 12 ∧
    dict_get "dexterity" (abilities (self w)) = Some 14 ∧
    dict_get "charisma" (abilities (self w2)) = Some 14 ∧
    dict_get "dexterity" (abilities (self w2)) = Some 18.
Proof.
  set (w := state_of (set_race true
              (state_of (set_abilities decimal true (fresh tape0 []))))).
  assert (Hreach : reachable decimal w).
  { apply reach_set_race, reach_set_abilities, reach_init. }
  assert (Hz : 0 ∉ values (abilities (self w))) by compute_done.
  assert (Hr : race (self w) = Some "High Elf") by reflexivity.
  split; [exact Hreach|]. split; [exact Hz|]. split; [exact Hr|].
  destruct (set_racial_traits_applied_twice decimal w Hreach Hz Hr)
    as (c & x & w1 & w2 & Hc & Hx & H1 & H2 & _ & _ & Hc2 & Hx2 & _).
  injection Hc as <-. injection Hx as <-.
  exists w1, w2. split; [exact H1|]. split; [exact H2|].
  split; [reflexivity|]. split; [reflexivity|].
  split; [exact Hc2|exact Hx2].
Defined.
